(** * discord-bot-cli: a shallow embedding of the routing and execution core

    The development follows the Python sources
    - [discord_bot_cli/bot.py]          (module [Bot])
    - [discord_bot_cli/io_handlers.py]  (modules [StdinIO], [FileIO] and
                                         [SocketIO])
    - [discord_bot_cli/service.py]      (module [Service])
    - [discord_bot_cli/config.py]       (module [ConfigMerge])

    Python [str] values are sequences of Unicode code points, [bytes] are
    lists of [byte]; a coroutine is a computation in a state-and-exception
    monad over the part of the world it touches. *)

From Stdlib Require Import ZArith NArith String Ascii List Lia Bool.
From Stdlib Require Import Strings.Byte.
From stdpp Require Import base option list gmap strings pretty.

Set Warnings "-register-all".
Local Open Scope Z_scope.
Local Open Scope list_scope.

(* ===================================================================== *)
(** ** Python strings *)
(* ===================================================================== *)

Module PyStr.

(** A [str] is a list of code points. *)
Definition str : Type := list N.

(** A literal of the source, written with an ASCII Rocq string. *)
Definition lit (s : string) : str :=
  map (fun c => N_of_ascii c) (list_ascii_of_string s).

(** [str.isspace] on one code point: the characters Python's [strip()] and
    [split()] treat as whitespace. *)
Definition isspace (c : N) : bool :=
  ((9 <=? c) && (c <=? 13) || (28 <=? c) && (c <=? 32)
   || (c =? 133) || (c =? 160) || (c =? 5760)
   || (8192 <=? c) && (c <=? 8202)
   || (c =? 8232) || (c =? 8233) || (c =? 8239) || (c =? 8287)
   || (c =? 12288))%N.

Fixpoint lstrip (s : str) : str :=
  match s with
  | c :: s' => if isspace c then lstrip s' else s
  | [] => []
  end.

Definition rstrip (s : str) : str := rev (lstrip (rev s)).

(** [s.strip()] *)
Definition strip (s : str) : str := rstrip (lstrip s).

(** [s.startswith(p)] *)
Fixpoint startswith (s p : str) {struct p} : bool :=
  match p, s with
  | [], _ => true
  | _ :: _, [] => false
  | a :: p', b :: s' => (a =? b)%N && startswith s' p'
  end.

(** [s[n:]] for a non-negative constant [n]. *)
Definition slice_from (n : nat) (s : str) : str := drop n s.

(** [s[:n]] for a non-negative constant [n]. *)
Definition slice_to (n : nat) (s : str) : str := take n s.

(** [s.split()]: split on runs of whitespace, no empty tokens.  [cur] is the
    token being read, reversed. *)
Fixpoint split_aux (cur : str) (s : str) : list str :=
  match s with
  | [] => match cur with [] => [] | _ => [rev cur] end
  | c :: s' =>
      if isspace c
      then match cur with
           | [] => split_aux [] s'
           | _ => rev cur :: split_aux [] s'
           end
      else split_aux (c :: cur) s'
  end.

Definition split (s : str) : list str := split_aux [] s.

(** [sep.join(parts)] *)
Fixpoint join (sep : str) (parts : list str) : str :=
  match parts with
  | [] => []
  | [p] => p
  | p :: rest => p ++ sep ++ join sep rest
  end.

(** [str(n)] for an [int]. *)
Definition str_int (n : Z) : str := lit (pretty n).

(** [str(b)] for a [bool]. *)
Definition str_bool (b : bool) : str := if b then lit "True" else lit "False".

(** [a or b] on strings: the first operand unless it is empty. *)
Definition str_or (a b : str) : str := match a with [] => b | _ => a end.

End PyStr.
Export PyStr.

(* ===================================================================== *)
(** ** pathlib: pure POSIX paths *)
(* ===================================================================== *)

Module PyPath.

(** A [PurePosixPath]: its root (empty, [/] or [//]) and its parts. *)
Record PurePath := { root : str; parts : list str }.

Definition is_sep (c : N) : bool := (c =? 47)%N.

(** [rel.split('/')] *)
Fixpoint split_sep (s : str) : list str :=
  match s with
  | [] => [[]]
  | c :: rest =>
      if is_sep c then [] :: split_sep rest
      else match split_sep rest with
           | x :: xs => (c :: x) :: xs
           | [] => [[c]]
           end
  end.

(** [posixpath.splitroot(p)]: the root and the rest; exactly two leading
    slashes are a root of their own, three or more are one. *)
Definition splitroot (p : str) : str * str :=
  match p with
  | c1 :: rest1 =>
      if is_sep c1 then
        match rest1 with
        | c2 :: rest2 =>
            if is_sep c2 then
              match rest2 with
              | c3 :: _ =>
                  if is_sep c3 then (lit "/", rest1) else (lit "//", rest2)
              | [] => (lit "//", rest2)
              end
            else (lit "/", rest1)
        | [] => (lit "/", rest1)
        end
      else ([], p)
  | [] => ([], p)
  end.

(** [x and x != '.'], the parts that parsing keeps. *)
Definition kept (x : str) : bool :=
  match x with
  | [] => false
  | [c] => negb (c =? 46)%N
  | _ => true
  end.

(** [Path(s)]: empty parts and [.] are dropped, [..] is kept. *)
Definition Path (s : str) : PurePath :=
  {| root := fst (splitroot s);
     parts := List.filter kept (split_sep (snd (splitroot s))) |}.

(** [str(p)] *)
Definition to_str (p : PurePath) : str :=
  str_or (root p ++ join (lit "/") (parts p)) (lit ".").

(** The path of the entry [name] of the directory [p], as [p.glob("*")]
    yields it. *)
Definition child (p : PurePath) (name : str) : PurePath :=
  {| root := root p; parts := parts p ++ [name] |}.

End PyPath.

(* ===================================================================== *)
(** ** Exceptions and coroutines *)
(* ===================================================================== *)

(** The exception classes the sources raise, catch or let through.  The last
    three derive from [BaseException] only (Python >= 3.8, the version
    [setup.py] requires), every other one derives from [Exception]. *)
Inductive ExcClass :=
  | ValueError | UnsupportedOperation | FileNotFoundError | PermissionError
  | OSError | UnicodeDecodeError | UnicodeEncodeError | JSONDecodeError
  | AttributeError | KeyError | TypeError | TimeoutError | OverflowError
  | HTTPException | RuntimeError
  | SystemExit | KeyboardInterrupt | CancelledError.

Definition is_Exception (c : ExcClass) : bool :=
  match c with
  | SystemExit | KeyboardInterrupt | CancelledError => false
  | _ => true
  end.

Definition is_JSONDecodeError (c : ExcClass) : bool :=
  match c with JSONDecodeError => true | _ => false end.

Definition is_TimeoutError (c : ExcClass) : bool :=
  match c with TimeoutError => true | _ => false end.

(** An exception instance: its class and [str(e)]. *)
Record PyExc := mkExc { exc_class : ExcClass; exc_text : str }.

Inductive Result (A : Type) :=
  | Ok (a : A)
  | Raise (e : PyExc).
Arguments Ok {A} a.
Arguments Raise {A} e.

(** A coroutine over the state [St] returning an [A] or raising. *)
Definition M (St A : Type) : Type := St -> Result A * St.

Definition ret {St A} (a : A) : M St A := fun s => (Ok a, s).

Definition bind {St A B} (m : M St A) (k : A -> M St B) : M St B :=
  fun s => match m s with
           | (Ok a, s') => k a s'
           | (Raise e, s') => (Raise e, s')
           end.

Definition raise {St A} (e : PyExc) : M St A := fun s => (Raise e, s).

Definition get {St} : M St St := fun s => (Ok s, s).
Definition gets {St A} (f : St -> A) : M St A := fun s => (Ok (f s), s).
Definition modify {St} (f : St -> St) : M St unit := fun s => (Ok tt, f s).

(** [try: m  except <classes accepted by catches> as e: h e] *)
Definition try_except {St A} (m : M St A) (catches : ExcClass -> bool)
    (h : PyExc -> M St A) : M St A :=
  fun s => match m s with
           | (Ok a, s') => (Ok a, s')
           | (Raise e, s') =>
               if catches (exc_class e) then h e s' else (Raise e, s')
           end.

(** [try: m  finally: f] *)
Definition try_finally {St A} (m : M St A) (f : M St unit) : M St A :=
  fun s => match m s with
           | (r, s') => match f s' with
                        | (Ok _, s'') => (r, s'')
                        | (Raise e, s'') => (Raise e, s'')
                        end
           end.

Declare Scope py_scope.
Delimit Scope py_scope with py.
Notation "'let*' x ':=' m 'in' k" := (bind m (fun x => k))
  (at level 10, x name, m at level 100, k at level 200) : py_scope.
Notation "m >> k" := (bind m (fun _ => k))
  (at level 200, k at level 200, right associativity) : py_scope.
Local Open Scope py_scope.

(** The coroutine [m] leaves the part [proj] of its state as it was,
    whatever it returns or raises. *)
Definition keeps {St X A} (proj : St -> X) (m : M St A) : Prop :=
  forall s, proj (snd (m s)) = proj s.

(** Log records: level and message. *)
Inductive LogLevel := DEBUG | INFO | WARNING | ERROR.
Definition LogRecord : Type := LogLevel * str.

(* ===================================================================== *)
(** ** Bytes, UTF-8 and decoded JSON values *)
(* ===================================================================== *)

Module Bytes.

Definition byte_of (n : N) : byte :=
  match Byte.of_N n with
  | Some b => b
  | None => x00
  end.

(** [int.from_bytes(bs, 'big')], for any number of bytes. *)
Definition from_bytes (bs : list byte) : N :=
  fold_left (fun acc b => (acc * 256 + Byte.to_N b)%N) bs 0%N.

(** [n.to_bytes(4, 'big')]; [None] stands for [OverflowError]. *)
Definition to_bytes4 (n : N) : option (list byte) :=
  if (n <? 4294967296)%N then
    Some [byte_of (n / 16777216); byte_of ((n / 65536) mod 256);
          byte_of ((n / 256) mod 256); byte_of (n mod 256)]%N
  else None.

(** The payload of a continuation byte [10xxxxxx]. *)
Definition continuation (b : byte) : option N :=
  let n := Byte.to_N b in
  if ((128 <=? n) && (n <=? 191))%N then Some (n - 128)%N else None.

(** [bs.decode('utf-8')]; [None] stands for [UnicodeDecodeError].  Overlong
    forms, surrogates and code points above U+10FFFF are refused. *)
Fixpoint utf8_decode (bs : list byte) : option str :=
  match bs with
  | [] => Some []
  | b1 :: r1 =>
      let n1 := Byte.to_N b1 in
      if (n1 <? 128)%N then
        option_map (cons n1) (utf8_decode r1)
      else if ((194 <=? n1) && (n1 <=? 223))%N then
        match r1 with
        | b2 :: r2 =>
            match continuation b2 with
            | Some c2 =>
                option_map (cons ((n1 - 192) * 64 + c2)%N) (utf8_decode r2)
            | None => None
            end
        | _ => None
        end
      else if ((224 <=? n1) && (n1 <=? 239))%N then
        match r1 with
        | b2 :: b3 :: r3 =>
            match continuation b2, continuation b3 with
            | Some c2, Some c3 =>
                let cp := ((n1 - 224) * 4096 + c2 * 64 + c3)%N in
                if ((cp <? 2048) || (55296 <=? cp) && (cp <=? 57343))%N
                then None
                else option_map (cons cp) (utf8_decode r3)
            | _, _ => None
            end
        | _ => None
        end
      else if ((240 <=? n1) && (n1 <=? 244))%N then
        match r1 with
        | b2 :: b3 :: b4 :: r4 =>
            match continuation b2, continuation b3, continuation b4 with
            | Some c2, Some c3, Some c4 =>
                let cp := ((n1 - 240) * 262144 + c2 * 4096 + c3 * 64 + c4)%N in
                if ((cp <? 65536) || (1114111 <? cp))%N then None
                else option_map (cons cp) (utf8_decode r4)
            | _, _, _ => None
            end
        | _ => None
        end
      else None
  end.

(** The UTF-8 form of one code point; [None] for a surrogate or a value that
    is no code point. *)
Definition utf8_encode_char (c : N) : option (list byte) :=
  (if c <? 128 then Some [byte_of c]
   else if c <? 2048 then Some [byte_of (192 + c / 64); byte_of (128 + c mod 64)]
   else if (55296 <=? c) && (c <=? 57343) then None
   else if c <? 65536 then
     Some [byte_of (224 + c / 4096); byte_of (128 + (c / 64) mod 64);
           byte_of (128 + c mod 64)]
   else if c <=? 1114111 then
     Some [byte_of (240 + c / 262144); byte_of (128 + (c / 4096) mod 64);
           byte_of (128 + (c / 64) mod 64); byte_of (128 + c mod 64)]
   else None)%N.

(** [s.encode('utf-8')]; [None] stands for [UnicodeEncodeError]. *)
Fixpoint utf8_encode (s : str) : option (list byte) :=
  match s with
  | [] => Some []
  | c :: s' =>
      match utf8_encode_char c, utf8_encode s' with
      | Some bs, Some rest => Some (bs ++ rest)
      | _, _ => None
      end
  end.

End Bytes.
Export Bytes.

(** A value decoded by [json.loads] or handed to [json.dumps].  A [float] is
    kept by its textual form. *)
Inductive json :=
  | JNull
  | JBool (b : bool)
  | JInt (z : Z)
  | JFloat (repr : str)
  | JStr (s : str)
  | JList (l : list json)
  | JDict (d : list (str * json)).

(* ===================================================================== *)
(** ** config.py: the configuration the core receives *)
(* ===================================================================== *)

Record BotConfig := {
  token : str;
  channel_id : option Z;
  guild_id : option Z;
  prefix : str;
}.

Record FileConfig := {
  file_enabled : bool;
  input_file : option str;
  output_file : option str;
  file_encoding : str;
}.

Record ServiceConfig := {
  service_enabled : bool;
  script_directory : str;
  allowed_commands : list str;
  max_execution_time : Z;
  working_directory : str;
}.

Record Config := {
  bot : BotConfig;
  file : FileConfig;
  service : ServiceConfig;
}.

(** Truth value of an [Optional[int]]: [None] and [0] are false. *)
Definition truthy_int (o : option Z) : bool :=
  match o with
  | Some z => negb (z =? 0)
  | None => false
  end.

(** Truth value of an [Optional[str]]: [None] and the empty string are false. *)
Definition truthy_str (o : option str) : bool :=
  match o with
  | Some (_ :: _) => true
  | _ => false
  end.

(* ===================================================================== *)
(** ** The world outside the program *)
(* ===================================================================== *)

(** A chat user; [==] on users compares ids, [str(user)] is the label. *)
Record User := { user_id : Z; user_label : str }.

(** [discord.Message], the fields the sources read. *)
Record Message := {
  msg_id : Z;
  msg_author : User;
  msg_channel : Z;
  msg_guild : option Z;
  msg_content : str;
}.

(** The chat service as the bot sees it. *)
Record Discord := {
  d_user : User;                 (* self.bot.user *)
  d_ready : bool;                (* self.bot.is_ready() *)
  d_channels : list Z;           (* channels get_channel finds *)
  d_send_error : str -> option PyExc;
                                 (* what channel.send raises, if it does *)
  d_outbox : list (Z * str);     (* messages sent: channel and content *)
  (* what iterating channel.history(limit=...) yields: the recent messages
     with the ISO form of their creation time, or an exception *)
  d_history : json -> Result (list (Message * str));
}.

(** A node of the file system: a directory with its entries in scan order,
    or a regular file with its permission bits and text. *)
Inductive Node :=
  | Dir (entries : list str)
  | File (st_mode : N) (text : str).

(** An open file object: aliases of one object share one entry of the
    handle table. *)
Inductive OpenMode := ModeR | ModeA.
Record FileObject := {
  fo_path : str;
  fo_mode : OpenMode;
  fo_closed : bool;
}.

(** What is asked of the operating system when a child is launched. *)
Record SpawnRequest := {
  sp_program : str;
  sp_args : list str;
  sp_cwd : option str;               (* None: the parent's directory *)
  sp_env : option (gmap str str);    (* None: the parent's environment *)
}.

(** How a launched child behaves with respect to the wait of the parent:
    the launch fails, the child exits in time with its status and its
    decoded output, or it is still running when the timeout expires. *)
Inductive ChildRun :=
  | LaunchFails (e : PyExc)
  | Exits (returncode : Z) (stdout stderr : str)
  | Overruns.

Inductive ProcStatus := Running | Exited (returncode : Z) | Killed.

Record Process := { p_request : SpawnRequest; p_status : ProcStatus }.

(** An insertion-ordered [dict] with string keys: assignment to a present
    key keeps its position. *)
Module PyDict.
Definition t (V : Type) : Type := list (str * V).

Fixpoint dget {V} (k : str) (d : t V) : option V :=
  match d with
  | [] => None
  | (k', v) :: d' => if decide (k' = k) then Some v else dget k d'
  end.

Fixpoint dset {V} (k : str) (v : V) (d : t V) : t V :=
  match d with
  | [] => [(k, v)]
  | (k', v') :: d' =>
      if decide (k' = k) then (k, v) :: d' else (k', v') :: dset k v d'
  end.

Definition mem {V} (k : str) (d : t V) : bool :=
  match dget k d with Some _ => true | None => false end.

Definition keys {V} (d : t V) : list str := map fst d.
End PyDict.

Record World := {
  w_discord : Discord;
  w_is_running : bool;                    (* DiscordBot.is_running *)
  w_fs : gmap str Node;
  w_files : list FileObject;              (* file objects, by identity *)
  w_environ : gmap str str;               (* os.environ *)
  w_child : SpawnRequest -> ChildRun;     (* the behaviour of children *)
  w_procs : list Process;                 (* children launched, by pid *)
  w_script_cache : PyDict.t str;          (* ServiceHandler.script_cache *)
  w_service_running : bool;               (* ServiceHandler.running *)
  w_log : list LogRecord;
}.

Definition set_discord (f : Discord -> Discord) (w : World) : World :=
  {| w_discord := f (w_discord w); w_is_running := w_is_running w;
     w_fs := w_fs w; w_files := w_files w; w_environ := w_environ w;
     w_child := w_child w; w_procs := w_procs w;
     w_script_cache := w_script_cache w;
     w_service_running := w_service_running w; w_log := w_log w |}.

Definition set_fs (f : gmap str Node -> gmap str Node) (w : World) : World :=
  {| w_discord := w_discord w; w_is_running := w_is_running w;
     w_fs := f (w_fs w); w_files := w_files w; w_environ := w_environ w;
     w_child := w_child w; w_procs := w_procs w;
     w_script_cache := w_script_cache w;
     w_service_running := w_service_running w; w_log := w_log w |}.

Definition set_files (f : list FileObject -> list FileObject) (w : World)
    : World :=
  {| w_discord := w_discord w; w_is_running := w_is_running w;
     w_fs := w_fs w; w_files := f (w_files w); w_environ := w_environ w;
     w_child := w_child w; w_procs := w_procs w;
     w_script_cache := w_script_cache w;
     w_service_running := w_service_running w; w_log := w_log w |}.

Definition set_procs (f : list Process -> list Process) (w : World) : World :=
  {| w_discord := w_discord w; w_is_running := w_is_running w;
     w_fs := w_fs w; w_files := w_files w; w_environ := w_environ w;
     w_child := w_child w; w_procs := f (w_procs w);
     w_script_cache := w_script_cache w;
     w_service_running := w_service_running w; w_log := w_log w |}.

Definition set_script_cache (f : PyDict.t str -> PyDict.t str) (w : World)
    : World :=
  {| w_discord := w_discord w; w_is_running := w_is_running w;
     w_fs := w_fs w; w_files := w_files w; w_environ := w_environ w;
     w_child := w_child w; w_procs := w_procs w;
     w_script_cache := f (w_script_cache w);
     w_service_running := w_service_running w; w_log := w_log w |}.

Definition set_log (f : list LogRecord -> list LogRecord) (w : World) : World :=
  {| w_discord := w_discord w; w_is_running := w_is_running w;
     w_fs := w_fs w; w_files := w_files w; w_environ := w_environ w;
     w_child := w_child w; w_procs := w_procs w;
     w_script_cache := w_script_cache w;
     w_service_running := w_service_running w; w_log := f (w_log w) |}.

(** [logging.<level>(text)] *)
Definition logging (lvl : LogLevel) (text : str) : M World unit :=
  modify (set_log (fun l => l ++ [(lvl, text)])).

(* ===================================================================== *)
(** ** bot.py *)
(* ===================================================================== *)

Module Bot.

(** [message.channel.id != channel_id] for an [Optional[int]] right side. *)
Definition int_ne (a : Z) (o : option Z) : bool :=
  match o with
  | Some c => negb (a =? c)
  | None => true
  end.

(** [on_message]: the dispatch of one inbound message to the registered
    handlers.  The handlers work on a state [S] of their own; what the
    dispatcher itself does (the calls it makes, the records it logs, the
    hand-over to the command framework) is kept as a trace of events. *)
Section Dispatch.
Context {S : Type}.

Definition Handler : Type := Message -> M S unit.

Inductive Event :=
  | Called (i : nat) (m : Message)   (* handler number i is called with m *)
  | Logged (r : LogRecord)
  | ProcessCommands (m : Message).   (* self.bot.process_commands(m) *)

Definition DState : Type := S * list Event.

Definition emit (e : Event) : M DState unit :=
  modify (fun st => (fst st, snd st ++ [e])).

(** [await handler(message)] / [handler(message)] *)
Definition call (i : nat) (h : Handler) (message : Message)
    : M DState unit :=
  emit (Called i message) >>
  (fun st => let r := h message (fst st) in (fst r, (snd r, snd st))).

(** [for handler in self.message_handlers: try: ... except Exception] *)
Fixpoint for_handlers (i : nat) (hs : list Handler) (message : Message)
    : M DState unit :=
  match hs with
  | [] => ret tt
  | h :: hs' =>
      try_except (call i h message) is_Exception
        (fun e => emit (Logged (ERROR,
                    lit "Error in message handler: " ++ exc_text e))) >>
      for_handlers (Datatypes.S i) hs' message
  end.

Definition on_message (user : User) (config : Config)
    (message_handlers : list Handler) (message : Message)
    : M DState unit :=
  (* Ignore messages from the bot itself *)
  if user_id (msg_author message) =? user_id user then ret tt
  (* Check if message is in the configured channel *)
  else if truthy_int (channel_id (bot config))
          && int_ne (msg_channel message) (channel_id (bot config))
  then ret tt
  else
    (* Call registered message handlers *)
    for_handlers 0 message_handlers message >>
    (* Process commands *)
    emit (ProcessCommands message).

(** [add_message_handler] *)
Definition add_message_handler (message_handlers : list Handler)
    (handler : Handler) : list Handler :=
  message_handlers ++ [handler].

(** The handler numbers called, in the order of the calls. *)
Fixpoint invoked (trace : list Event) : list nat :=
  match trace with
  | [] => []
  | Called i _ :: t => i :: invoked t
  | _ :: t => invoked t
  end.

(** The records logged. *)
Fixpoint logged (trace : list Event) : list LogRecord :=
  match trace with
  | [] => []
  | Logged r :: t => r :: logged t
  | _ :: t => logged t
  end.

(** The message passes the two guards at the head of [on_message]. *)
Definition passes_filter (user : User) (config : Config)
    (message : Message) : bool :=
  negb (user_id (msg_author message) =? user_id user)
  && negb (truthy_int (channel_id (bot config))
           && int_ne (msg_channel message) (channel_id (bot config))).

(** The state the handlers leave when each is run once, in turn. *)
Fixpoint run_handlers (hs : list Handler) (message : Message) (s : S) : S :=
  match hs with
  | [] => s
  | h :: hs' => run_handlers hs' message (snd (h message s))
  end.

(** The exceptions raised on the way, in the order of the handlers. *)
Fixpoint failures (hs : list Handler) (message : Message) (s : S)
    : list PyExc :=
  match hs with
  | [] => []
  | h :: hs' =>
      match fst (h message s) with
      | Raise e => [e]
      | Ok _ => []
      end ++ failures hs' message (snd (h message s))
  end.

(** The record [on_message] logs for a failure. *)
Definition failure_record (e : PyExc) : LogRecord :=
  (ERROR, lit "Error in message handler: " ++ exc_text e).

(** The events of a loop in which no failure gets out. *)
Fixpoint loop_events (i : nat) (hs : list Handler) (message : Message)
    (s : S) : list Event :=
  match hs with
  | [] => []
  | h :: hs' =>
      Called i message ::
      match fst (h message s) with
      | Raise e => [Logged (failure_record e)]
      | Ok _ => []
      end ++ loop_events (Datatypes.S i) hs' message (snd (h message s))
  end.

(** A handler fails, if it does, with an exception derived from
    [Exception]. *)
Definition fails_with_Exception (h : Handler) (message : Message) : Prop :=
  forall s e s', h message s = (Raise e, s') ->
                 is_Exception (exc_class e) = true.
End Dispatch.

(** [channel.send(content)] *)
Definition channel_send (c : Z) (content : str) : M World unit :=
  fun w => match d_send_error (w_discord w) content with
           | Some e => (Raise e, w)
           | None =>
               (Ok tt, set_discord (fun d =>
                  {| d_user := d_user d; d_ready := d_ready d;
                     d_channels := d_channels d;
                     d_send_error := d_send_error d;
                     d_outbox := d_outbox d ++ [(c, content)];
                     d_history := d_history d |}) w)
           end.

(** [send_message(content, channel_id=None)] *)
Definition send_message (config : Config) (content : str)
    (channel : option Z) : M World bool :=
  try_except
    (let channel_id :=
       if truthy_int channel then channel else channel_id (bot config) in
     match channel_id with
     | Some c =>
         if c =? 0 then
           logging ERROR (lit "No channel ID configured") >> ret false
         else
           let* d := gets w_discord in
           if negb (existsb (Z.eqb c) (d_channels d)) then
             logging ERROR (lit "Channel " ++ str_int c ++ lit " not found")
             >> ret false
           else
             channel_send c content >> ret true
     | None =>
         logging ERROR (lit "No channel ID configured") >> ret false
     end)
    is_Exception
    (fun e =>
       logging ERROR (lit "Error sending message: " ++ exc_text e) >>
       ret false).

(** [get_channel_messages(limit)] *)
Definition get_channel_messages (config : Config) (limit : json)
    : M World (list (Message * str)) :=
  try_except
    (match channel_id (bot config) with
     | Some c =>
         if c =? 0 then
           logging ERROR (lit "No channel ID configured") >> ret []
         else
           let* d := gets w_discord in
           if negb (existsb (Z.eqb c) (d_channels d)) then
             logging ERROR (lit "Channel " ++ str_int c ++ lit " not found")
             >> ret []
           else
             fun w => (d_history d limit, w)
     | None =>
         logging ERROR (lit "No channel ID configured") >> ret []
     end)
    is_Exception
    (fun e =>
       logging ERROR (lit "Error getting channel messages: " ++ exc_text e) >>
       ret []).

(** [is_connected()] *)
Definition is_connected : M World bool :=
  let* w := get in ret (d_ready (w_discord w) && w_is_running w).

End Bot.

(* ===================================================================== *)
(** ** io_handlers.py: FileHandler *)
(* ===================================================================== *)

Module FileIO.

(** [Path(p).exists()] *)
Definition exists_ (p : str) : M World bool :=
  gets (fun w => match w_fs w !! p with Some _ => true | None => false end).

(** [aiofiles.open(p, mode)]: a new file object, named by its position in
    the table of file objects. *)
Definition aio_open (p : str) (mode : OpenMode) : M World nat :=
  fun w =>
    let fresh := {| fo_path := p; fo_mode := mode; fo_closed := false |} in
    let opened := (Ok (length (w_files w)),
                   set_files (fun l => l ++ [fresh]) w) in
    match w_fs w !! p, mode with
    | Some (File _ _), _ => opened
    | Some (Dir _), _ =>
        (Raise (mkExc OSError (lit "[Errno 21] Is a directory")), w)
    | None, ModeR =>
        (Raise (mkExc FileNotFoundError
                  (lit "[Errno 2] No such file or directory")), w)
    | None, ModeA =>
        (fst opened, set_fs (fun m => <[p := File 420 []]> m) (snd opened))
    end.

Definition closed_file : PyExc :=
  mkExc ValueError (lit "I/O operation on closed file.").

(** [f.read()] on a file object that has not been read yet. *)
Definition aio_read (f : nat) : M World str :=
  fun w =>
    match w_files w !! f with
    | Some fo =>
        if fo_closed fo then (Raise closed_file, w)
        else match fo_mode fo, w_fs w !! fo_path fo with
             | ModeR, Some (File _ text) => (Ok text, w)
             | _, _ => (Raise (mkExc UnsupportedOperation
                                 (lit "not readable")), w)
             end
    | None => (Raise closed_file, w)
    end.

(** [f.close()], what leaving [async with] does. *)
Definition aio_close (f : nat) : M World unit :=
  modify (set_files (fun l =>
    match l !! f with
    | Some fo => <[f := {| fo_path := fo_path fo; fo_mode := fo_mode fo;
                           fo_closed := true |}]> l
    | None => l
    end)).

(** [f.truncate(size)] *)
Definition aio_truncate (f : nat) (size : nat) : M World unit :=
  fun w =>
    match w_files w !! f with
    | Some fo =>
        if fo_closed fo then (Raise closed_file, w)
        else match fo_mode fo, w_fs w !! fo_path fo with
             | ModeA, Some (File mode text) =>
                 (Ok tt, set_fs (fun m =>
                    <[fo_path fo := File mode (take size text)]> m) w)
             | _, _ => (Raise (mkExc UnsupportedOperation
                                 (lit "File not open for writing")), w)
             end
    | None => (Raise closed_file, w)
    end.

(** [_process_input_file] *)
Definition _process_input_file (config : Config) : M World unit :=
  try_except
    (match input_file (file config) with
     | None =>
         raise (mkExc TypeError
                  (lit "expected str, bytes or os.PathLike object, not NoneType"))
     | Some input_path =>
         let* present := exists_ input_path in
         if negb present then ret tt
         else
           (* Read file content *)
           let* f := aio_open input_path ModeR in
           let* content := try_finally (aio_read f) (aio_close f) in
           match strip content with
           | [] => ret tt
           | _ :: _ =>
               (* Send to Discord *)
               let* success :=
                 Bot.send_message config (strip content) None in
               if success then
                 logging DEBUG (lit "Sent file content to Discord: "
                                ++ slice_to 100 content ++ lit "...") >>
                 (* Clear the file after sending *)
                 aio_truncate f 0
               else
                 logging ERROR (lit "Failed to send file content to Discord")
           end
     end)
    is_Exception
    (fun e => logging ERROR (lit "Error processing input file: "
                             ++ exc_text e)).

(** One round of [_periodic_check] after its sleep. *)
Definition _periodic_check_round (config : Config) : M World unit :=
  try_except
    (if truthy_str (input_file (file config))
     then _process_input_file config else ret tt)
    is_Exception
    (fun e => logging ERROR (lit "Error in periodic file check: "
                             ++ exc_text e)).

(** The text of a regular file, if there is one at [p]. *)
Definition file_text (w : World) (p : str) : option str :=
  match w_fs w !! p with
  | Some (File _ text) => Some text
  | _ => None
  end.

End FileIO.

(* ===================================================================== *)
(** ** io_handlers.py: SocketHandler *)
(* ===================================================================== *)

Module SocketIO.

(** An [asyncio.StreamReader]: the bytes buffered, and the segments still to
    arrive before the end of the stream. *)
Record StreamReader := {
  buffer : list byte;
  incoming : list (list byte);
}.

(** An [asyncio.StreamWriter]: the bytes written, whether it is closed, and
    the error the connection is lost with, if it is lost with one (a broken
    pipe when the peer is gone before it has read the reply); the loss
    shows when the writer is closed. *)
Record StreamWriter := {
  written : list byte;
  closed : bool;
  lost : option PyExc;
}.

Record Conn := { reader : StreamReader; writer : StreamWriter }.

(** Waiting for data: the next non-empty segment, if there is one. *)
Fixpoint wait_for_data (segments : list (list byte))
    : list byte * list (list byte) :=
  match segments with
  | [] => ([], [])
  | [] :: rest => wait_for_data rest
  | seg :: rest => (seg, rest)
  end.

(** [reader.read(n)] for [n >= 0]: at most [n] bytes, as soon as one byte is
    there; no byte at the end of the stream. *)
Definition read (n : nat) (r : StreamReader) : list byte * StreamReader :=
  match n with
  | O => ([], r)
  | _ =>
      let r' := match buffer r with
                | [] => let got := wait_for_data (incoming r) in
                        {| buffer := fst got; incoming := snd got |}
                | _ => r
                end in
      (take n (buffer r'),
       {| buffer := drop n (buffer r'); incoming := incoming r' |})
  end.

(** The bytes a reader can still deliver. *)
Definition pending (r : StreamReader) : nat :=
  length (buffer r) + length (concat (incoming r)).

Definition CState : Type := World * Conn.

Definition in_world {A} (m : M World A) : M CState A :=
  fun st => let r := m (fst st) in (fst r, (snd r, snd st)).

Definition reader_read (n : nat) : M CState (list byte) :=
  fun st =>
    let r := read n (reader (snd st)) in
    (Ok (fst r), (fst st, {| reader := snd r; writer := writer (snd st) |})).

(** [writer.write(data); await writer.drain()] *)
Definition writer_write (data : list byte) : M CState unit :=
  modify (fun st =>
    (fst st, {| reader := reader (snd st);
                writer := {| written := written (writer (snd st)) ++ data;
                             closed := closed (writer (snd st));
                             lost := lost (writer (snd st)) |} |})).

(** [writer.close()] *)
Definition writer_close : M CState unit :=
  modify (fun st =>
    (fst st, {| reader := reader (snd st);
                writer := {| written := written (writer (snd st));
                             closed := true;
                             lost := lost (writer (snd st)) |} |})).

(** [await writer.wait_closed()]: a connection that was lost with an error
    raises that error again here. *)
Definition writer_wait_closed : M CState unit :=
  fun st =>
    match lost (writer (snd st)) with
    | Some e => (Raise e, st)
    | None => (Ok tt, st)
    end.

Definition of_option {St A} (o : option A) (e : PyExc) : M St A :=
  match o with
  | Some a => ret a
  | None => raise e
  end.

(** The type name Python gives in the [AttributeError] for [data.get]. *)
Definition type_name (v : json) : str :=
  match v with
  | JNull => lit "NoneType"
  | JBool _ => lit "bool"
  | JInt _ => lit "int"
  | JFloat _ => lit "float"
  | JStr _ => lit "str"
  | JList _ => lit "list"
  | JDict _ => lit "dict"
  end.

(** [data.get(key, default)] *)
Definition data_get (data : json) (key : str) (default : json)
    : Result json :=
  match data with
  | JDict d =>
      Ok (match PyDict.dget key d with Some v => v | None => default end)
  | _ => Raise (mkExc AttributeError
                  (lit "'" ++ type_name data
                   ++ lit "' object has no attribute 'get'"))
  end.

(** [command == 'name'] *)
Definition is_str (v : json) (name : string) : bool :=
  match v with
  | JStr s => bool_decide (s = lit name)
  | _ => false
  end.

Section Protocol.
(** The [json] module: [json.loads] ([None] stands for [JSONDecodeError])
    and [json.dumps]; and [str()] of a decoded list or dict. *)
Variable json_loads : str -> option json.
Variable json_dumps : json -> str.
Variable container_str : json -> str.

(** [str(v)], what an f-string makes of a decoded value. *)
Definition format_value (v : json) : str :=
  match v with
  | JNull => lit "None"
  | JBool b => str_bool b
  | JInt z => str_int z
  | JFloat r => r
  | JStr s => s
  | _ => container_str v
  end.

(** The text that reaches the chat service for a [content] value: a
    [None] content is no content. *)
Definition content_text (v : json) : str :=
  match v with
  | JNull => []
  | _ => format_value v
  end.

Definition message_dict (m : Message * str) : json :=
  JDict [(lit "id", JInt (msg_id (fst m)));
         (lit "content", JStr (msg_content (fst m)));
         (lit "author", JStr (user_label (msg_author (fst m))));
         (lit "timestamp", JStr (snd m))].

(** [_process_socket_message] *)
Definition _process_socket_message (config : Config) (message : str)
    : M World str :=
  try_except
    ((* Parse JSON message *)
     let* data := of_option (json_loads message)
                    (mkExc JSONDecodeError (lit "Expecting value")) in
     let* command := (fun w => (data_get data (lit "command") JNull, w)) in
     if is_str command "send" then
       let* content :=
         (fun w => (data_get data (lit "content") (JStr []), w)) in
       let* success :=
         Bot.send_message config (content_text content) None in
       ret (json_dumps (JDict [(lit "success", JBool success);
                               (lit "message", content)]))
     else if is_str command "status" then
       let* connected := Bot.is_connected in
       let* running := gets w_is_running in
       ret (json_dumps (JDict [(lit "connected", JBool connected);
                               (lit "running", JBool running)]))
     else if is_str command "get_messages" then
       let* limit :=
         (fun w => (data_get data (lit "limit") (JInt 10), w)) in
       let* messages := Bot.get_channel_messages config limit in
       ret (json_dumps
              (JDict [(lit "messages", JList (map message_dict messages))]))
     else
       ret (json_dumps
              (JDict [(lit "error",
                       JStr (lit "Unknown command: "
                             ++ format_value command))])))
    is_Exception
    (fun e =>
       if is_JSONDecodeError (exc_class e) then
         ret (json_dumps
                (JDict [(lit "error", JStr (lit "Invalid JSON message"))]))
       else
         ret (json_dumps (JDict [(lit "error", JStr (exc_text e))]))).

(** The frame of a text: [len(data).to_bytes(4, 'big') + data] with
    [data = text.encode('utf-8')]. *)
Definition encode_frame {St} (text : str) : M St (list byte) :=
  let* data := of_option (utf8_encode text)
                 (mkExc UnicodeEncodeError
                    (lit "'utf-8' codec can't encode character")) in
  let* prefix := of_option (to_bytes4 (N.of_nat (length data)))
                   (mkExc OverflowError (lit "int too big to convert")) in
  ret (prefix ++ data).

(** How one round of the loop of [_handle_client] ends. *)
Inductive Round := Break | Continue.

(** Lines 243-253: the length, then the content; [None] where the loop
    breaks. *)
Definition read_frame : M CState (option (list byte)) :=
  (* Read message length *)
  let* length_data := reader_read 4 in
  match length_data with
  | [] => ret None
  | _ :: _ =>
      let message_length := from_bytes length_data in
      (* Read message content *)
      let* message_data := reader_read (N.to_nat message_length) in
      if negb (N.of_nat (length message_data) =? message_length)%N
      then ret None
      else ret (Some message_data)
  end.

(** The body of [while self.running] in [_handle_client]. *)
Definition client_round (config : Config) : M CState Round :=
  let* frame := read_frame in
  match frame with
  | None => ret Break
  | Some message_data =>
      let* message := of_option (utf8_decode message_data)
                        (mkExc UnicodeDecodeError
                           (lit "'utf-8' codec can't decode byte")) in
      in_world (logging DEBUG (lit "Received socket message: " ++ message))
      >>
      (* Process message *)
      let* response := in_world (_process_socket_message config message) in
      (* Send response *)
      let* response_frame := encode_frame response in
      writer_write response_frame >>
      ret Continue
  end.

(** [while self.running: ...], at most [fuel] rounds; the result tells
    whether the loop came to its end within them. *)
Fixpoint client_loop (fuel : nat) (running : bool) (config : Config)
    : M CState bool :=
  if negb running then ret true
  else match fuel with
       | O => ret false
       | S fuel' =>
           let* r := client_round config in
           match r with
           | Break => ret true
           | Continue => client_loop fuel' running config
           end
       end.

(** [_handle_client(reader, writer)]: every round takes at least one byte
    off the reader, so one round more than it has bytes is enough. *)
Definition _handle_client (running : bool) (config : Config)
    (client_addr : str) : M CState bool :=
  in_world (logging INFO (lit "Client connected: " ++ client_addr)) >>
  try_finally
    (try_except
       (fun st => client_loop (S (pending (reader (snd st))))
                    running config st)
       is_Exception
       (fun e =>
          in_world (logging ERROR (lit "Error handling client "
                                   ++ client_addr ++ lit ": "
                                   ++ exc_text e)) >>
          ret true))
    (writer_close >>
     writer_wait_closed >>
     in_world (logging INFO (lit "Client disconnected: " ++ client_addr))).

(** [send_socket_message(socket_path, message)], given what
    [asyncio.open_unix_connection(socket_path)] returns or raises. *)
Definition send_socket_message (connection : Result Conn) (message : str)
    : M CState (option str) :=
  try_except
    ((fun st => match connection with
                | Ok c => (Ok tt, (fst st, c))
                | Raise e => (Raise e, st)
                end) >>
     (* Send message *)
     let* message_frame := encode_frame message in
     writer_write message_frame >>
     (* Read response *)
     let* length_data := reader_read 4 in
     match length_data with
     | [] => ret None
     | _ :: _ =>
         let response_length := from_bytes length_data in
         let* response_data := reader_read (N.to_nat response_length) in
         let* response := of_option (utf8_decode response_data)
                            (mkExc UnicodeDecodeError
                               (lit "'utf-8' codec can't decode byte")) in
         writer_close >>
         writer_wait_closed >>
         ret (Some response)
     end)
    is_Exception
    (fun e =>
       in_world (logging ERROR (lit "Error sending socket message: "
                                ++ exc_text e)) >>
       ret None).
End Protocol.

(** A connection on which [segments] arrive and nothing was written, and
    which is not lost with an error. *)
Definition fresh_conn (segments : list (list byte)) : Conn :=
  {| reader := {| buffer := []; incoming := segments |};
     writer := {| written := []; closed := false; lost := None |} |}.

End SocketIO.

(* ===================================================================== *)
(** ** service.py: ServiceHandler *)
(* ===================================================================== *)

Module Service.

(** [asyncio.create_subprocess_exec(...)]: the child is launched and named
    by its position in the table of children, or the launch raises. *)
Definition create_subprocess_exec (req : SpawnRequest) : M World nat :=
  fun w =>
    match w_child w req with
    | LaunchFails e => (Raise e, w)
    | _ => (Ok (length (w_procs w)),
            set_procs (fun l => l ++ [{| p_request := req;
                                         p_status := Running |}]) w)
    end.

Definition set_status (pid : nat) (st : ProcStatus) (l : list Process)
    : list Process :=
  match l !! pid with
  | Some p => <[pid := {| p_request := p_request p; p_status := st |}]> l
  | None => l
  end.

(** [asyncio.wait_for(process.communicate(), timeout=...)]: the exit status
    and the output of a child that ends in time, [TimeoutError] for one that
    does not; the wait itself leaves such a child as it is. *)
Definition communicate (pid : nat) : M World (Z * str * str) :=
  fun w =>
    match w_procs w !! pid with
    | Some p =>
        match w_child w (p_request p) with
        | Exits rc out err =>
            (Ok (rc, out, err), set_procs (set_status pid (Exited rc)) w)
        | _ => (Raise (mkExc TimeoutError []), w)
        end
    | None => (Raise (mkExc RuntimeError (lit "no such process")), w)
    end.

(** [process.kill()] *)
Definition kill (pid : nat) : M World unit :=
  modify (set_procs (fun l =>
    match l !! pid with
    | Some {| p_status := Running |} => set_status pid Killed l
    | _ => l
    end)).

(** [str(script_file)] for the entry [name] of [script_dir.glob("*")]. *)
Definition path_join (dir : PyPath.PurePath) (name : str) : str :=
  PyPath.to_str (PyPath.child dir name).

(** [st_mode & 0o111] *)
Definition executable (st_mode : N) : bool :=
  negb (N.land st_mode 73 =? 0)%N.

(** The body of [for script_file in script_dir.glob("*")]. *)
Fixpoint load_entries (dir : PyPath.PurePath) (entries : list str)
    : M World unit :=
  match entries with
  | [] => ret tt
  | name :: rest =>
      let* node := gets (fun w => w_fs w !! path_join dir name) in
      match node with
      | Some (File st_mode _) =>
          if executable st_mode then
            modify (set_script_cache
                      (PyDict.dset name (path_join dir name))) >>
            logging INFO (lit "Loaded script: " ++ name)
          else ret tt
      | _ => ret tt
      end >>
      load_entries dir rest
  end.

(** [_load_scripts] *)
Definition _load_scripts (config : Config) : M World unit :=
  let script_dir := PyPath.Path (script_directory (service config)) in
  let* node := gets (fun w => w_fs w !! PyPath.to_str script_dir) in
  match node with
  | None =>
      modify (set_fs (fun m => <[PyPath.to_str script_dir := Dir []]> m)) >>
      logging INFO (lit "Created script directory: "
                    ++ PyPath.to_str script_dir)
  | Some (Dir entries) => load_entries script_dir entries
  | Some (File _ _) => ret tt
  end.

(** The environment overlay of [_execute_script]. *)
Definition script_env (environ : gmap str str) (message : Message)
    (args : list str) : gmap str str :=
  <[lit "DISCORD_ARGS" := join (lit " ") args]>
  (<[lit "DISCORD_MESSAGE_CONTENT" := msg_content message]>
  (<[lit "DISCORD_GUILD_ID" :=
       match msg_guild message with Some g => str_int g | None => [] end]>
  (<[lit "DISCORD_CHANNEL_ID" := str_int (msg_channel message)]>
  (<[lit "DISCORD_AUTHOR" := user_label (msg_author message)]>
  (<[lit "DISCORD_MESSAGE_ID" := str_int (msg_id message)]> environ))))).

(** [_execute_script(script_name, args, message)] *)
Definition _execute_script (config : Config) (script_name : str)
    (args : list str) (message : option Message) : M World str :=
  let* cache := gets w_script_cache in
  let* script_path :=
    match PyDict.dget script_name cache with
    | Some p => ret p
    | None => raise (mkExc KeyError (lit "'" ++ script_name ++ lit "'"))
    end in
  try_except
    ((* Prepare environment *)
     let* environ := gets w_environ in
     let* env :=
       match message with
       | Some m => ret (script_env environ m args)
       | None => raise (mkExc AttributeError
                          (lit "'NoneType' object has no attribute 'id'"))
       end in
     (* Execute script *)
     let* process := create_subprocess_exec
       {| sp_program := script_path; sp_args := args;
          sp_cwd := Some (working_directory (service config));
          sp_env := Some env |} in
     (* Wait for completion with timeout *)
     try_except
       (let* res := communicate process in
        (* Process output *)
        let stdout_text := strip (snd (fst res)) in
        let stderr_text := strip (snd res) in
        if fst (fst res) =? 0 then
          ret (str_or stdout_text (lit "Script executed successfully"))
        else
          ret (lit "Script failed (exit code " ++ str_int (fst (fst res))
               ++ lit "):" ++ [10%N] ++ str_or stderr_text stdout_text))
       is_TimeoutError
       (fun _ =>
          kill process >>
          ret (lit "Script '" ++ script_name ++ lit "' timed out after "
               ++ str_int (max_execution_time (service config))
               ++ lit " seconds")))
    is_Exception
    (fun e =>
       logging ERROR (lit "Error executing script '" ++ script_name
                      ++ lit "': " ++ exc_text e) >>
       ret (lit "Error executing script: " ++ exc_text e)).

(** [_execute_system_command(command, args)] *)
Definition _execute_system_command (config : Config) (command : str)
    (args : list str) : M World str :=
  try_except
    (let* process := create_subprocess_exec
       {| sp_program := command; sp_args := args;
          sp_cwd := None; sp_env := None |} in
     let* res := communicate process in
     let stdout_text := strip (snd (fst res)) in
     let stderr_text := strip (snd res) in
     if fst (fst res) =? 0 then
       ret (str_or stdout_text (lit "Command executed successfully"))
     else
       ret (lit "Command failed (exit code " ++ str_int (fst (fst res))
            ++ lit "):" ++ [10%N] ++ str_or stderr_text stdout_text))
    is_Exception
    (fun e =>
       if is_TimeoutError (exc_class e) then
         ret (lit "Command '" ++ command ++ lit "' timed out after "
              ++ str_int (max_execution_time (service config))
              ++ lit " seconds")
       else
         ret (lit "Error executing command: " ++ exc_text e)).

(** The order of [sorted] on strings: by code points. *)
Fixpoint str_leb (a b : str) : bool :=
  match a, b with
  | [], _ => true
  | _ :: _, [] => false
  | x :: a', y :: b' => (x <? y)%N || ((x =? y)%N && str_leb a' b')
  end.

Fixpoint insert_sorted (k : str) (l : list str) : list str :=
  match l with
  | [] => [k]
  | x :: l' => if str_leb k x then k :: l else x :: insert_sorted k l'
  end.

Definition sorted (l : list str) : list str :=
  fold_right insert_sorted [] l.

Definition newline : str := [10%N].

(** [_get_help] *)
Definition _get_help : M World str :=
  let* cache := gets w_script_cache in
  let help_text :=
    [lit "Available commands:";
     lit "  help - Show this help message";
     lit "  list - List available scripts";
     lit "  status - Show bot status";
     lit "  reload - Reload scripts";
     [];
     lit "System commands:";
     lit "  ls, ps, df, free, uptime, whoami, pwd";
     [];
     lit "Scripts:"] in
  ret (join newline
         (help_text ++
          match cache with
          | [] => [lit "  No scripts available"]
          | _ => map (fun n => lit "  " ++ n) (sorted (PyDict.keys cache))
          end)).

(** [_list_scripts] *)
Definition _list_scripts : M World str :=
  let* cache := gets w_script_cache in
  match cache with
  | [] => ret (lit "No scripts available")
  | _ =>
      ret (lit "Available scripts:" ++ newline ++
           join newline
             (map (fun kv => lit "  " ++ fst kv ++ lit " (" ++ snd kv
                             ++ lit ")") cache))
  end.

(** [_get_status] *)
Definition _get_status (config : Config) : M World str :=
  let* connected := Bot.is_connected in
  let* w := get in
  ret (join newline
         [lit "Bot connected: " ++ str_bool connected;
          lit "Service running: " ++ str_bool (w_service_running w);
          lit "Scripts loaded: "
            ++ str_int (Z.of_nat (length (w_script_cache w)));
          lit "Working directory: " ++ working_directory (service config);
          lit "Max execution time: "
            ++ str_int (max_execution_time (service config)) ++ lit "s"]).

Definition system_commands : list str :=
  [lit "ls"; lit "ps"; lit "df"; lit "free"; lit "uptime"; lit "whoami";
   lit "pwd"].

(** [x in l] on a list of strings. *)
Definition str_in (x : str) (l : list str) : bool :=
  existsb (fun y => bool_decide (x = y)) l.

(** [_execute_command(command, args, message)] *)
Definition _execute_command (config : Config) (command : str)
    (args : list str) (message : option Message) : M World str :=
  try_except
    ((* Check if command is in allowed commands *)
     if match allowed_commands (service config) with
        | [] => false
        | _ :: _ => negb (str_in command (allowed_commands (service config)))
        end
     then ret (lit "Command '" ++ command ++ lit "' not allowed")
     else
       let* cache := gets w_script_cache in
       (* Check if it's a script *)
       if PyDict.mem command cache then
         _execute_script config command args message
       (* Check if it's a system command *)
       else if str_in command system_commands then
         _execute_system_command config command args
       (* Check if it's a custom command *)
       else if bool_decide (command = lit "help") then _get_help
       else if bool_decide (command = lit "list") then _list_scripts
       else if bool_decide (command = lit "status") then _get_status config
       else if bool_decide (command = lit "reload") then
         _load_scripts config >> ret (lit "Scripts reloaded")
       else
         ret (lit "Unknown command: " ++ command
              ++ lit ". Use 'help' for available commands."))
    is_Exception
    (fun e =>
       logging ERROR (lit "Error executing command '" ++ command
                      ++ lit "': " ++ exc_text e) >>
       ret (lit "Error executing command: " ++ exc_text e)).

(** Lines 59-74 of [_handle_service_message]: the command and its arguments
    read off a message, [None] where the handler returns early. *)
Definition parse_command (config : Config) (text : str)
    : option (str * list str) :=
  let content := strip text in
  (* Check if message starts with service prefix *)
  if negb (startswith content (prefix (bot config))) then None
  else
    (* Remove prefix *)
    let command_line := strip (slice_from 1 content) in
    (* Parse command *)
    match split command_line with
    | [] => None
    | command :: args => Some (command, args)
    end.

(** [_handle_service_message(message)] *)
Definition _handle_service_message (config : Config) (message : Message)
    : M World unit :=
  match parse_command config (msg_content message) with
  | None => ret tt
  | Some (command, args) =>
      (* Execute command *)
      let* response := _execute_command config command args (Some message) in
      (* Send response back to Discord *)
      match response with
      | [] => ret tt
      | _ :: _ =>
          let* _ := Bot.send_message config response None in ret tt
      end
  end.

(** [execute_script_direct(script_name, args)] *)
Definition execute_script_direct (config : Config) (script_name : str)
    (args : list str) : M World str :=
  let* cache := gets w_script_cache in
  if negb (PyDict.mem script_name cache) then
    ret (lit "Script '" ++ script_name ++ lit "' not found")
  else _execute_script config script_name args None.

(** The children that are running. *)
Definition running_children (w : World) : list Process :=
  List.filter
    (fun p => match p_status p with Running => true | _ => false end)
    (w_procs w).


(** [name] is a regular file of [dir] with an execute bit. *)
Definition is_script (fs : gmap str Node) (dir : PyPath.PurePath)
    (name : str) : bool :=
  match fs !! path_join dir name with
  | Some (File st_mode _) => executable st_mode
  | _ => false
  end.

End Service.

(* ===================================================================== *)
(** ** Concrete configurations and worlds *)
(* ===================================================================== *)

Module Sample.

Definition bot_user : User := {| user_id := 1; user_label := lit "bridge" |}.
Definition alice : User := {| user_id := 7; user_label := lit "alice" |}.

Definition config_with (pfx : string) (chan : option Z)
    (allowed : list str) : Config :=
  {| bot := {| token := lit "token"; channel_id := chan; guild_id := None;
               prefix := lit pfx |};
     file := {| file_enabled := true; input_file := Some (lit "inbox.txt");
                output_file := None; file_encoding := lit "utf-8" |};
     service := {| service_enabled := true;
                   script_directory := lit "scripts";
                   allowed_commands := allowed;
                   max_execution_time := 30;
                   working_directory := lit "/srv/bot" |} |}.

Definition config : Config := config_with "!" (Some 42) [].

Definition discord : Discord :=
  {| d_user := bot_user; d_ready := true; d_channels := [42];
     d_send_error := fun _ => None; d_outbox := [];
     d_history := fun _ => Ok [] |}.

(** A world with [fs] as its files and [child] as the behaviour of the
    children launched in it. *)
Definition world_with (fs : gmap str Node) (child : SpawnRequest -> ChildRun)
    (cache : PyDict.t str) : World :=
  {| w_discord := discord; w_is_running := true; w_fs := fs; w_files := [];
     w_environ := {[ lit "PATH" := lit "/usr/bin" ]};
     w_child := child; w_procs := []; w_script_cache := cache;
     w_service_running := true; w_log := [] |}.

Definition message_from (u : User) (chan : Z) (text : string) : Message :=
  {| msg_id := 1001; msg_author := u; msg_channel := chan;
     msg_guild := Some 5; msg_content := lit text |}.

(** The mailbox file holds [hello]. *)
Definition mailbox_world : World :=
  world_with {[ lit "inbox.txt" := File 420 (lit "hello") ]}
             (fun _ => Overruns) [].

(** Every child overruns its timeout. *)
Definition hanging_world : World :=
  world_with ∅ (fun _ => Overruns)
             [(lit "backup", lit "scripts/backup")].


(** [greet] is loaded, and every child prints [hi] and exits with 0. *)
Definition greet_world : World :=
  world_with ∅ (fun _ => Exits 0 (lit "hi") [])
             [(lit "greet", lit "scripts/greet")].

(** A [json.loads] that reads every text as the status request, and a
    [json.dumps] that prints the flags of a status reply. *)
Definition loads_status : str -> option json :=
  fun _ => Some (JDict [(lit "command", JStr (lit "status"))]).
Definition dumps_flags (v : json) : str :=
  match v with
  | JDict [(_, JBool connected); (_, JBool running)] =>
      lit "connected=" ++ str_bool connected
      ++ lit " running=" ++ str_bool running
  | _ => lit "?"
  end.

(** A [json.loads] that reads every text as a request to send [hi]. *)
Definition loads_send : str -> option json :=
  fun _ => Some (JDict [(lit "command", JStr (lit "send"));
                        (lit "content", JStr (lit "hi"))]).

(** Handlers over a counter: one that counts its calls, one that fails
    with a [ValueError] after counting, one that ends the interpreter. *)
Definition counting : @Bot.Handler nat := fun _ n => (Ok tt, Datatypes.S n).
Definition faulty : @Bot.Handler nat :=
  fun _ n => (Raise (mkExc ValueError (lit "boom")), Datatypes.S n).
Definition exiting : @Bot.Handler nat :=
  fun _ n => (Raise (mkExc SystemExit (lit "0")), Datatypes.S n).

End Sample.

(* ===================================================================== *)
(** ** io_handlers.py: StdinHandler *)
(* ===================================================================== *)

Module StdinIO.

(** How one round of the loop of [_read_stdin] ends. *)
Inductive Step := Stop | Next.

(** The body of [while self.running] in [_read_stdin].  [next] is what
    [sys.stdin.readline] gives: a line with its newline, an exception, or
    nothing more ([readline] then returns the empty string). *)
Definition stdin_round (config : Config) (next : option (Result str))
    : M World Step :=
  try_except
    ((* Read line from stdin *)
     let* line := match next with
                  | None => ret []
                  | Some (Ok l) => ret l
                  | Some (Raise e) => raise e
                  end in
     match line with
     | [] => ret Stop
     | _ :: _ =>
         match strip line with
         | [] => ret Next
         | _ :: _ =>
             (* Send to Discord *)
             let* success := Bot.send_message config (strip line) None in
             (if success then
                logging DEBUG (lit "Sent message to Discord: " ++ strip line)
              else
                logging ERROR (lit "Failed to send message: " ++ strip line))
             >> ret Next
         end
     end)
    is_Exception
    (fun e =>
       logging ERROR (lit "Error reading from stdin: " ++ exc_text e) >>
       ret Stop).

(** [_read_stdin], on the reads that standard input has in store. *)
Fixpoint _read_stdin (config : Config) (running : bool)
    (stdin : list (Result str)) : M World unit :=
  if negb running then ret tt
  else
    let* r := stdin_round config (head stdin) in
    match r, stdin with
    | Next, _ :: rest => _read_stdin config running rest
    | _, _ => ret tt
    end.

(** The lines that come before the end of the input, as [_read_stdin] sees
    it: an empty string is the end. *)
Fixpoint lines_read (lines : list str) : list str :=
  match lines with
  | [] => []
  | [] :: _ => []
  | l :: rest => l :: lines_read rest
  end.

(** The texts [_read_stdin] forwards: the lines that are not blank,
    trimmed. *)
Fixpoint forwarded (lines : list str) : list str :=
  match lines with
  | [] => []
  | l :: rest =>
      match strip l with
      | [] => forwarded rest
      | t => t :: forwarded rest
      end
  end.

End StdinIO.

(* ===================================================================== *)
(** ** config.py: ConfigManager._merge_configs *)
(* ===================================================================== *)

Module ConfigMerge.

(** [_merge_configs(base, overrides)] for [overrides] given as a value: the
    loop over [overrides.items()] runs on the items of a dict. *)
Fixpoint merge_value (base : list (str * json)) (overrides : json)
    {struct overrides} : list (str * json) :=
  match overrides with
  | JDict items =>
      (fix loop (result : list (str * json)) (items : list (str * json))
           {struct items} : list (str * json) :=
         match items with
         | [] => result
         | (key, value) :: rest =>
             loop
               match PyDict.dget key result, value with
               | Some (JDict b), JDict _ =>
                   PyDict.dset key (JDict (merge_value b value)) result
               | _, _ => PyDict.dset key value result
               end
               rest
         end) base items
  | _ => base
  end.

(** [_merge_configs] *)
Definition _merge_configs (base overrides : list (str * json))
    : list (str * json) :=
  merge_value base (JDict overrides).

(** One turn of the loop of [_merge_configs]. *)
Definition merge_item (result : list (str * json)) (item : str * json)
    : list (str * json) :=
  match PyDict.dget (fst item) result, snd item with
  | Some (JDict b), JDict o =>
      PyDict.dset (fst item) (JDict (_merge_configs b o)) result
  | _, _ => PyDict.dset (fst item) (snd item) result
  end.

End ConfigMerge.

(** The chat service takes every message for channel [c]: [c] is the
    configured channel, the client knows it, and [channel.send] raises
    nothing. *)
Definition service_up (config : Config) (c : Z) (w : World) : Prop :=
  channel_id (bot config) = Some c /\ c <> 0 /\
  existsb (Z.eqb c) (d_channels (w_discord w)) = true /\
  forall content, d_send_error (w_discord w) content = None.

(* ===================================================================== *)
(** * Properties *)
(* ===================================================================== *)

(** ** The dispatcher ([Bot.on_message]) *)

Section DispatchProperties.
Context {S : Type}.
Implicit Types (hs : list (@Bot.Handler S)) (s : S) (t : list Bot.Event).

Lemma invoked_app t1 t2 :
  Bot.invoked (t1 ++ t2) = Bot.invoked t1 ++ Bot.invoked t2.
Proof.
  induction t1 as [|e t1 IH]; [reflexivity|].
  destruct e; simpl; rewrite IH; reflexivity.
Qed.

Lemma logged_app t1 t2 :
  Bot.logged (t1 ++ t2) = Bot.logged t1 ++ Bot.logged t2.
Proof.
  induction t1 as [|e t1 IH]; [reflexivity|].
  destruct e; simpl; rewrite IH; reflexivity.
Qed.

(** One handler, whatever it does short of a [BaseException]: the call is
    recorded, a failure is logged, and the loop goes on. *)
Lemma for_handlers_cons i h hs message s t :
  Bot.fails_with_Exception h message ->
  Bot.for_handlers i (h :: hs) message (s, t) =
  Bot.for_handlers (Datatypes.S i) hs message
    (snd (h message s),
     t ++ Bot.Called i message ::
          match fst (h message s) with
          | Raise e => [Bot.Logged (Bot.failure_record e)]
          | Ok _ => []
          end).
Proof.
  intros Hexc. cbn [Bot.for_handlers].
  unfold bind at 1, try_except, Bot.call, bind, Bot.emit, modify. simpl.
  destruct (h message s) as [[[]|e] s'] eqn:E; simpl.
  - reflexivity.
  - rewrite (Hexc _ _ _ E). simpl.
    unfold Bot.failure_record. rewrite <- app_assoc. reflexivity.
Qed.

Lemma for_handlers_events hs : forall i message s t,
  Forall (fun h => Bot.fails_with_Exception h message) hs ->
  Bot.for_handlers i hs message (s, t) =
  (Ok tt, (Bot.run_handlers hs message s,
           t ++ Bot.loop_events i hs message s)).
Proof.
  induction hs as [|h hs IH]; intros i message s t Hall.
  - simpl. unfold ret. rewrite app_nil_r. reflexivity.
  - inversion Hall as [|? ? Hh Hrest]; subst.
    rewrite for_handlers_cons by assumption.
    rewrite IH by assumption. simpl.
    rewrite <- app_assoc. reflexivity.
Qed.

Lemma invoked_loop_events hs : forall i message s,
  Bot.invoked (Bot.loop_events i hs message s) = seq i (length hs).
Proof.
  induction hs as [|h hs IH]; intros i message s; [reflexivity|].
  simpl. rewrite invoked_app, IH.
  destruct (fst (h message s)); reflexivity.
Qed.

Lemma logged_loop_events hs : forall i message s,
  Bot.logged (Bot.loop_events i hs message s) =
  map Bot.failure_record (Bot.failures hs message s).
Proof.
  induction hs as [|h hs IH]; intros i message s; [reflexivity|].
  simpl. rewrite logged_app, IH, map_app.
  destruct (fst (h message s)); reflexivity.
Qed.
End DispatchProperties.

(** C3, as the code has it.  For a message that passes the two guards of
    [on_message] (not written by the bot itself, and on the configured
    channel when one is configured) and handlers that fail only with
    exceptions derived from [Exception]: every registered handler is called
    exactly once, in registration order, each on the state its predecessor
    left; every failure is logged as an error and no failure reaches the
    caller. *)
Theorem C3_dispatch_isolates_failures {S : Type} (user : User)
    (config : Config) (hs : list (@Bot.Handler S)) (message : Message)
    (s : S) :
  Bot.passes_filter user config message = true ->
  Forall (fun h => Bot.fails_with_Exception h message) hs ->
  let r := Bot.on_message user config hs message (s, []) in
  fst r = Ok tt /\
  fst (snd r) = Bot.run_handlers hs message s /\
  Bot.invoked (snd (snd r)) = seq 0 (length hs) /\
  Bot.logged (snd (snd r)) =
    map Bot.failure_record (Bot.failures hs message s).
Proof.
  intros Hpass Hall. unfold Bot.passes_filter in Hpass.
  apply andb_true_iff in Hpass as [Hauthor Hchannel].
  apply negb_true_iff in Hauthor, Hchannel.
  unfold Bot.on_message. rewrite Hauthor, Hchannel.
  unfold bind. rewrite for_handlers_events by assumption.
  unfold Bot.emit, modify. simpl.
  rewrite invoked_app, logged_app, invoked_loop_events, logged_loop_events.
  simpl. rewrite !app_nil_r. auto.
Qed.

Lemma C3_dispatch_isolates_failures_witness :
  let message := Sample.message_from Sample.alice 42 "hi" in
  let hs := [Sample.counting; Sample.faulty; Sample.counting] in
  let r := Bot.on_message Sample.bot_user Sample.config hs message (0%nat, []) in
  fst r = Ok tt /\
  fst (snd r) = 3%nat /\
  Bot.invoked (snd (snd r)) = [0; 1; 2]%nat /\
  Bot.logged (snd (snd r)) =
    [(ERROR, lit "Error in message handler: boom")].
Proof.
  apply (C3_dispatch_isolates_failures Sample.bot_user Sample.config
           [Sample.counting; Sample.faulty; Sample.counting]
           (Sample.message_from Sample.alice 42 "hi") 0%nat).
  - reflexivity.
  - repeat constructor; intros s e s' H; inversion H; reflexivity.
Defined.

(** C3 as stated fails: a message written by the bot itself reaches no
    handler, although one is registered. *)
Lemma C3_counterexample :
  let message := Sample.message_from Sample.bot_user 42 "hi" in
  let r := Bot.on_message Sample.bot_user Sample.config [Sample.counting]
             message (0%nat, []) in
  Bot.invoked (snd (snd r)) = [] /\
  Bot.invoked (snd (snd r)) <> seq 0 (length [Sample.counting]) /\
  fst (snd r) = 0%nat.
Proof. vm_compute. repeat split. discriminate. Qed.

(** A failure outside [Exception] is not caught: it ends the loop and
    reaches the caller. *)
Lemma dispatch_BaseException_propagates :
  let message := Sample.message_from Sample.alice 42 "hi" in
  let r := Bot.on_message Sample.bot_user Sample.config
             [Sample.exiting; Sample.counting] message (0%nat, []) in
  fst r = Raise (mkExc SystemExit (lit "0")) /\
  Bot.invoked (snd (snd r)) = [0%nat].
Proof. vm_compute. split; reflexivity. Qed.

(** C10.  A message written by the bot itself, and, when a channel id is
    configured (an id other than [0], which the code reads as none), a
    message on another channel, reaches no handler: [on_message] returns at
    once and leaves the state and the trace as they were. *)
Theorem C10_filtered_message_reaches_no_handler {S : Type} (user : User)
    (config : Config) (hs : list (@Bot.Handler S)) (message : Message)
    (st : @Bot.DState S) :
  (user_id (msg_author message) = user_id user \/
   exists c, channel_id (bot config) = Some c /\ c <> 0 /\
             msg_channel message <> c) ->
  Bot.on_message user config hs message st = (Ok tt, st).
Proof.
  intros [Hself | (c & Hc & Hnz & Hother)]; unfold Bot.on_message.
  - rewrite Hself, Z.eqb_refl. reflexivity.
  - destruct (user_id (msg_author message) =? user_id user); [reflexivity|].
    rewrite Hc. simpl.
    apply Z.eqb_neq in Hnz, Hother. rewrite Hnz, Hother. reflexivity.
Qed.

Lemma C10_filtered_message_reaches_no_handler_witness :
  Bot.on_message Sample.bot_user Sample.config
    [Sample.counting; Sample.faulty]
    (Sample.message_from Sample.alice 43 "hi") (0%nat, []) =
  (Ok tt, (0%nat, [])).
Proof.
  apply (C10_filtered_message_reaches_no_handler Sample.bot_user
           Sample.config [Sample.counting; Sample.faulty]
           (Sample.message_from Sample.alice 43 "hi") (0%nat, [])).
  right. exists 42. repeat split; simpl; lia.
Defined.

(** ** Frame lemmas: what a coroutine leaves as it was *)
Arguments lit : simpl never.
Arguments str_int : simpl never.
Arguments strip : simpl never.

Section Keeps.
Context {X : Type} (proj : World -> X).

Lemma keeps_ret {A} (a : A) : keeps proj (ret a).
Proof. intros w. reflexivity. Qed.

Lemma keeps_raise {A} e : keeps proj (@raise World A e).
Proof. intros w. reflexivity. Qed.

Lemma keeps_gets {A} (f : World -> A) : keeps proj (gets f).
Proof. intros w. reflexivity. Qed.

Lemma keeps_get : keeps proj get.
Proof. intros w. reflexivity. Qed.

Lemma keeps_bind {A B} (m : M World A) (k : A -> M World B) :
  keeps proj m -> (forall a, keeps proj (k a)) -> keeps proj (bind m k).
Proof.
  intros Hm Hk w. unfold bind. specialize (Hm w).
  destruct (m w) as [[a|e] w']; simpl in *; [|assumption].
  rewrite Hk. assumption.
Qed.

Lemma keeps_try_except {A} (m : M World A) c h :
  keeps proj m -> (forall e, keeps proj (h e)) ->
  keeps proj (try_except m c h).
Proof.
  intros Hm Hh w. unfold try_except. specialize (Hm w).
  destruct (m w) as [[a|e] w']; simpl in *; [assumption|].
  destruct (c (exc_class e)); [|assumption].
  rewrite Hh. assumption.
Qed.

Lemma keeps_try_finally {A} (m : M World A) f :
  keeps proj m -> keeps proj f -> keeps proj (try_finally m f).
Proof.
  intros Hm Hf w. unfold try_finally. specialize (Hm w).
  destruct (m w) as [r w']. specialize (Hf w').
  destruct (f w') as [[[]|e] w'']; simpl in *; congruence.
Qed.

Lemma keeps_modify (f : World -> World) :
  (forall w, proj (f w) = proj w) -> keeps proj (modify f).
Proof. intros H w. apply H. Qed.
End Keeps.

Ltac keeps_step :=
  first
    [ apply keeps_ret | apply keeps_raise | apply keeps_gets
    | apply keeps_get
    | apply keeps_bind; [|intros ?]
    | apply keeps_try_except; [|intros ?]
    | apply keeps_try_finally
    | apply keeps_modify; intros ?; reflexivity
    | match goal with
      | |- keeps _ (match ?x with _ => _ end) => destruct x
      | |- keeps _ (if ?b then _ else _) => destruct b
      end ].

Ltac keeps_tac := repeat keeps_step.

Lemma channel_send_keeps {X} (proj : World -> X) c content :
  (forall f w, proj (set_discord f w) = proj w) ->
  keeps proj (Bot.channel_send c content).
Proof.
  intros Hdis w. unfold Bot.channel_send.
  destruct (d_send_error (w_discord w) content); simpl; [reflexivity|].
  apply Hdis.
Qed.

Lemma send_message_keeps {X} (proj : World -> X) config content channel :
  (forall f w, proj (set_log f w) = proj w) ->
  (forall f w, proj (set_discord f w) = proj w) ->
  keeps proj (Bot.send_message config content channel).
Proof.
  intros Hlog Hdis. unfold Bot.send_message, logging. keeps_tac.
  all: try (apply keeps_modify; intros ?; apply Hlog).
  apply channel_send_keeps, Hdis.
Qed.

(** ** The file mailbox ([FileIO._process_input_file]) *)

Lemma process_input_file_keeps_fs config :
  keeps w_fs (FileIO._process_input_file config).
Proof.
  intros w.
  unfold FileIO._process_input_file.
  destruct (input_file (file config)) as [p|]; [|reflexivity].
  unfold try_except at 1, bind at 1, FileIO.exists_ at 1, gets at 1.
  destruct (w_fs w !! p) as [[entries|mode text]|] eqn:Hp; cbn [negb];
    try reflexivity.
  - unfold bind at 1, FileIO.aio_open. rewrite Hp. reflexivity.
  - unfold bind at 1, FileIO.aio_open at 1. rewrite Hp. cbn [fst snd].
    set (f := length (w_files w)).
    set (w1 := set_files _ w).
    unfold bind at 1, try_finally at 1, FileIO.aio_read at 1.
    assert (Hf : w_files w1 !! f = Some {| fo_path := p; fo_mode := ModeR;
                                           fo_closed := false |}).
    { subst w1 f. simpl. rewrite lookup_app_r by reflexivity.
      rewrite Nat.sub_diag. reflexivity. }
    rewrite Hf. cbn [fo_closed fo_mode fo_path].
    assert (Hp1 : w_fs w1 !! p = Some (File mode text)) by exact Hp.
    rewrite Hp1.
    unfold FileIO.aio_close at 1, modify at 1.
    set (w2 := set_files _ w1).
    assert (Hf2 : w_files w2 !! f = Some {| fo_path := p; fo_mode := ModeR;
                                            fo_closed := true |}).
    { subst w2. cbn [set_files w_files]. rewrite Hf.
      apply list_lookup_insert_eq. eapply lookup_lt_Some, Hf. }
    destruct (strip text) as [|c rest] eqn:Hstrip; [reflexivity|].
    unfold bind at 1.
    pose proof (send_message_keeps w_fs config (c :: rest) None
                  (fun _ _ => eq_refl) (fun _ _ => eq_refl) w2) as Hfs.
    pose proof (send_message_keeps w_files config (c :: rest) None
                  (fun _ _ => eq_refl) (fun _ _ => eq_refl) w2) as Hfiles.
    destruct (Bot.send_message config (c :: rest) None w2)
      as [[[|]|e] w3]; cbn [fst snd] in *.
    + unfold bind at 1, logging at 1, modify at 1.
      unfold FileIO.aio_truncate. cbn [set_log w_files].
      rewrite Hfiles, Hf2. cbn [fo_closed].
      destruct (is_Exception _); simpl; exact Hfs.
    + simpl. exact Hfs.
    + destruct (is_Exception _); simpl; exact Hfs.
Qed.

(** C1 at the mailbox holding [hello], with a chat service that accepts the
    send.  There is one outbound send with [hello], but the file is not
    emptied: [truncate] is called on the file object after [async with] has
    closed it, the [ValueError] is logged, and [hello] is still in the file;
    the next poll sends it again. *)
Theorem C1_mailbox_not_truncated :
  let r := FileIO._process_input_file Sample.config Sample.mailbox_world in
  let r' := FileIO._periodic_check_round Sample.config (snd r) in
  fst r = Ok tt /\
  d_outbox (w_discord (snd r)) = [(42, lit "hello")] /\
  FileIO.file_text (snd r) (lit "inbox.txt") = Some (lit "hello") /\
  last (w_log (snd r)) =
    Some (ERROR,
          lit "Error processing input file: I/O operation on closed file.") /\
  d_outbox (w_discord (snd r')) = [(42, lit "hello"); (42, lit "hello")].
Proof. vm_compute. repeat split; reflexivity. Qed.

(** ** The command executor ([Service]) *)

Lemma str_in_spec (x : str) (l : list str) :
  Service.str_in x l = true <-> x ∈ l.
Proof.
  unfold Service.str_in. rewrite existsb_exists. split.
  - intros (y & Hin & Heq). apply bool_decide_eq_true in Heq. subst.
    apply list_elem_of_In, Hin.
  - intros Hin. exists x. split; [apply list_elem_of_In, Hin|].
    apply bool_decide_eq_true. reflexivity.
Qed.

(** C5.  With a non-empty allow-list, a command that is not on it is
    answered with the not-allowed text and nothing else happens: no script,
    no system command and no built-in is run, whatever the command names. *)
Theorem C5_command_outside_allow_list_rejected (config : Config)
    (command : str) (args : list str) (message : option Message)
    (w : World) :
  allowed_commands (service config) <> [] ->
  command ∉ allowed_commands (service config) ->
  Service._execute_command config command args message w =
  (Ok (lit "Command '" ++ command ++ lit "' not allowed"), w).
Proof.
  intros Hne Hnot. unfold Service._execute_command, try_except.
  destruct (allowed_commands (service config)) as [|a l] eqn:Hl;
    [congruence|].
  destruct (Service.str_in command (a :: l)) eqn:Hin.
  - apply str_in_spec in Hin. contradiction.
  - reflexivity.
Qed.

Lemma C5_command_outside_allow_list_rejected_witness :
  let config := Sample.config_with "!" (Some 42) [lit "status"; lit "ls"] in
  Service._execute_command config (lit "backup") []
    (Some (Sample.message_from Sample.alice 42 "!backup"))
    Sample.hanging_world =
  (Ok (lit "Command 'backup' not allowed"), Sample.hanging_world) /\
  PyDict.mem (lit "backup") (w_script_cache Sample.hanging_world) = true.
Proof.
  split; [|reflexivity].
  apply (C5_command_outside_allow_list_rejected
           (Sample.config_with "!" (Some 42) [lit "status"; lit "ls"])
           (lit "backup") []
           (Some (Sample.message_from Sample.alice 42 "!backup"))
           Sample.hanging_world).
  - simpl. discriminate.
  - vm_compute. intros H. inversion H as [|? ? ? H1]; subst.
    inversion H1 as [|? ? ? H2]; subst. inversion H2.
Defined.

(** *** Children: what is launched, and what becomes of it *)

Arguments Service.script_env : simpl never.
Arguments join : simpl never.
Arguments str_or : simpl never.

Lemma lookup_snoc {A} (l : list A) (x : A) : (l ++ [x]) !! length l = Some x.
Proof. rewrite lookup_app_r by reflexivity. rewrite Nat.sub_diag. reflexivity. Qed.

Lemma set_status_snoc l req st st' :
  Service.set_status (length l) st'
    (l ++ [{| p_request := req; p_status := st |}]) =
  l ++ [{| p_request := req; p_status := st' |}].
Proof.
  unfold Service.set_status. rewrite lookup_snoc. simpl.
  rewrite insert_app_r_alt by reflexivity. rewrite Nat.sub_diag. reflexivity.
Qed.

(** The table of children after [_execute_system_command]: a child that
    overruns its timeout is left running. *)
Lemma system_command_procs config command args w :
  let req := {| sp_program := command; sp_args := args;
                sp_cwd := None; sp_env := None |} in
  w_procs (snd (Service._execute_system_command config command args w)) =
  w_procs w ++
  match w_child w req with
  | LaunchFails _ => []
  | Exits rc _ _ => [{| p_request := req; p_status := Exited rc |}]
  | Overruns => [{| p_request := req; p_status := Running |}]
  end.
Proof.
  intros req.
  unfold Service._execute_system_command, try_except, bind,
    Service.create_subprocess_exec, Service.communicate.
  fold req.
  destruct (w_child w req) as [e|rc out err|] eqn:Hc; cbn [fst snd].
  - destruct (is_Exception _); [destruct (is_TimeoutError _)|];
      simpl; rewrite app_nil_r; reflexivity.
  - cbn [set_procs w_procs w_child]. rewrite (lookup_snoc (w_procs w)).
    cbn [p_request]. rewrite Hc. cbn [fst snd set_procs w_procs].
    destruct (rc =? 0); simpl; apply set_status_snoc.
  - cbn [set_procs w_procs w_child]. rewrite (lookup_snoc (w_procs w)).
    cbn [p_request]. rewrite Hc. reflexivity.
Qed.

(** The answer of [_execute_system_command] for a child that overruns. *)
Lemma system_command_timeout_text config command args w :
  w_child w {| sp_program := command; sp_args := args;
               sp_cwd := None; sp_env := None |} = Overruns ->
  fst (Service._execute_system_command config command args w) =
  Ok (lit "Command '" ++ command ++ lit "' timed out after "
      ++ str_int (max_execution_time (service config)) ++ lit " seconds").
Proof.
  intros Hc.
  unfold Service._execute_system_command, try_except, bind,
    Service.create_subprocess_exec, Service.communicate.
  rewrite Hc. cbn [fst snd set_procs w_procs w_child].
  rewrite (lookup_snoc (w_procs w)). cbn [p_request]. rewrite Hc. reflexivity.
Qed.

(** The table of children after [_execute_script]: a child that overruns
    its timeout is killed. *)
Lemma script_procs config script_name args message w :
  w_procs (snd (Service._execute_script config script_name args message w)) =
  w_procs w ++
  match message, PyDict.dget script_name (w_script_cache w) with
  | Some m, Some script_path =>
      let req := {| sp_program := script_path; sp_args := args;
                    sp_cwd := Some (working_directory (service config));
                    sp_env := Some (Service.script_env (w_environ w) m args) |} in
      match w_child w req with
      | LaunchFails _ => []
      | Exits rc _ _ => [{| p_request := req; p_status := Exited rc |}]
      | Overruns => [{| p_request := req; p_status := Killed |}]
      end
  | _, _ => []
  end.
Proof.
  unfold Service._execute_script.
  unfold bind at 1, gets at 1.
  destruct (PyDict.dget script_name (w_script_cache w)) as [path|];
    [|destruct message; simpl; rewrite app_nil_r; reflexivity].
  unfold bind at 1, ret at 1.
  destruct message as [m|].
  - unfold try_except at 1, bind at 1, gets at 1.
    unfold bind at 1, ret at 1.
    unfold bind at 1, Service.create_subprocess_exec.
    set (req := {| sp_program := path |}).
    destruct (w_child w req) as [e|rc out err|] eqn:Hc; cbn [fst snd].
    + destruct (is_Exception _); simpl; rewrite app_nil_r; reflexivity.
    + unfold try_except, bind, Service.communicate.
      cbn [set_procs w_procs w_child]. rewrite (lookup_snoc (w_procs w)).
      cbn [p_request]. rewrite Hc. cbn [fst snd set_procs w_procs].
      destruct (rc =? 0); simpl; apply set_status_snoc.
    + unfold try_except, bind, Service.communicate.
      cbn [set_procs w_procs w_child]. rewrite (lookup_snoc (w_procs w)).
      cbn [p_request]. rewrite Hc. cbn [fst snd exc_class is_TimeoutError].
      unfold Service.kill, modify, ret. cbn [fst snd set_procs w_procs].
      rewrite (lookup_snoc (w_procs w)). cbn [p_status]. apply set_status_snoc.
  - simpl. rewrite app_nil_r. reflexivity.
Qed.

(** The answer of [_execute_script] for a child that overruns. *)
Lemma script_timeout_text config script_name script_path args m w :
  PyDict.dget script_name (w_script_cache w) = Some script_path ->
  w_child w {| sp_program := script_path; sp_args := args;
               sp_cwd := Some (working_directory (service config));
               sp_env := Some (Service.script_env (w_environ w) m args) |}
    = Overruns ->
  fst (Service._execute_script config script_name args (Some m) w) =
  Ok (lit "Script '" ++ script_name ++ lit "' timed out after "
      ++ str_int (max_execution_time (service config)) ++ lit " seconds").
Proof.
  intros Hcache Hc.
  unfold Service._execute_script.
  unfold bind at 1, gets at 1. rewrite Hcache.
  unfold bind at 1, ret at 1.
  unfold try_except at 1, bind at 1, gets at 1.
  unfold bind at 1, ret at 1.
  unfold bind at 1, Service.create_subprocess_exec.
  rewrite Hc. cbn [fst snd].
  unfold try_except, bind, Service.communicate.
  cbn [set_procs w_procs w_child]. rewrite (lookup_snoc (w_procs w)).
  cbn [p_request]. rewrite Hc. reflexivity.
Qed.

Lemma running_children_app w l :
  Service.running_children (set_procs (fun p => p ++ l) w) =
  Service.running_children w ++
  List.filter (fun p => match p_status p with Running => true | _ => false end) l.
Proof. unfold Service.running_children. simpl. apply List.filter_app. Qed.

Lemma running_children_procs w w' l :
  w_procs w' = w_procs w ++ l ->
  Service.running_children w' =
  Service.running_children w ++
  List.filter (fun p => match p_status p with Running => true | _ => false end) l.
Proof.
  intros H. unfold Service.running_children. rewrite H. apply List.filter_app.
Qed.

(** A script that overruns its timeout: the child is killed, no child is
    left running that was not running before, and the answer is the
    timed-out text. *)
Lemma script_timeout_kills_child config script_name script_path args m w :
  PyDict.dget script_name (w_script_cache w) = Some script_path ->
  w_child w {| sp_program := script_path; sp_args := args;
               sp_cwd := Some (working_directory (service config));
               sp_env := Some (Service.script_env (w_environ w) m args) |}
    = Overruns ->
  let r := Service._execute_script config script_name args (Some m) w in
  fst r = Ok (lit "Script '" ++ script_name ++ lit "' timed out after "
              ++ str_int (max_execution_time (service config))
              ++ lit " seconds") /\
  Service.running_children (snd r) = Service.running_children w.
Proof.
  intros Hcache Hc r. split.
  - eapply script_timeout_text; eassumption.
  - subst r. erewrite running_children_procs by apply script_procs.
    rewrite Hcache. cbn zeta. rewrite Hc. simpl. apply app_nil_r.
Qed.

(** A system command that overruns its timeout: the answer is the timed-out
    text, and the child is still running. *)
Lemma system_command_timeout_leaves_child config command args w :
  let req := {| sp_program := command; sp_args := args;
                sp_cwd := None; sp_env := None |} in
  w_child w req = Overruns ->
  let r := Service._execute_system_command config command args w in
  fst r = Ok (lit "Command '" ++ command ++ lit "' timed out after "
              ++ str_int (max_execution_time (service config))
              ++ lit " seconds") /\
  Service.running_children (snd r) =
    Service.running_children w
    ++ [{| p_request := req; p_status := Running |}].
Proof.
  intros req Hc r. split.
  - apply system_command_timeout_text; assumption.
  - subst r. erewrite running_children_procs by apply system_command_procs.
    fold req. rewrite Hc. reflexivity.
Qed.

(** C2 at the chat message [!ls -R /] in a world where the child overruns
    the timeout of 30 seconds.  The reply is the timed-out text, but the
    [ls] child is still running afterwards: [_execute_system_command] has no
    [process.kill()].  The script path, on the same kind of child, does kill
    it. *)
Theorem C2_system_command_timeout_leaves_child_running :
  let ls := {| sp_program := lit "ls"; sp_args := [lit "-R"; lit "/"];
               sp_cwd := None; sp_env := None |} in
  let r := Service._handle_service_message Sample.config
             (Sample.message_from Sample.alice 42 "!ls -R /")
             Sample.hanging_world in
  let r' := Service._handle_service_message Sample.config
              (Sample.message_from Sample.alice 42 "!backup")
              Sample.hanging_world in
  fst r = Ok tt /\
  d_outbox (w_discord (snd r)) =
    [(42, lit "Command 'ls' timed out after 30 seconds")] /\
  Service.running_children (snd r) =
    [{| p_request := ls; p_status := Running |}] /\
  d_outbox (w_discord (snd r')) =
    [(42, lit "Script 'backup' timed out after 30 seconds")] /\
  Service.running_children (snd r') = [] /\
  map p_status (w_procs (snd r')) = [Killed].
Proof. vm_compute. repeat split; reflexivity. Qed.

(** *** The environment and the working directory of a child *)


Ltac lit_ne := vm_compute; discriminate.

(** The six variables [_execute_script] injects, over the parent's
    environment. *)
Lemma script_env_lookup environ m args :
  let env := Service.script_env environ m args in
  env !! lit "DISCORD_MESSAGE_ID" = Some (str_int (msg_id m)) /\
  env !! lit "DISCORD_AUTHOR" = Some (user_label (msg_author m)) /\
  env !! lit "DISCORD_CHANNEL_ID" = Some (str_int (msg_channel m)) /\
  env !! lit "DISCORD_GUILD_ID" =
    Some (match msg_guild m with Some g => str_int g | None => [] end) /\
  env !! lit "DISCORD_MESSAGE_CONTENT" = Some (msg_content m) /\
  env !! lit "DISCORD_ARGS" = Some (join (lit " ") args) /\
  forall k,
    k ∉ [lit "DISCORD_MESSAGE_ID"; lit "DISCORD_AUTHOR";
         lit "DISCORD_CHANNEL_ID"; lit "DISCORD_GUILD_ID";
         lit "DISCORD_MESSAGE_CONTENT"; lit "DISCORD_ARGS"] ->
    env !! k = environ !! k.
Proof.
  unfold Service.script_env. cbn zeta.
  repeat split.
  - do 5 (rewrite lookup_insert_ne by lit_ne). apply lookup_insert_eq.
  - do 4 (rewrite lookup_insert_ne by lit_ne). apply lookup_insert_eq.
  - do 3 (rewrite lookup_insert_ne by lit_ne). apply lookup_insert_eq.
  - do 2 (rewrite lookup_insert_ne by lit_ne). apply lookup_insert_eq.
  - do 1 (rewrite lookup_insert_ne by lit_ne). apply lookup_insert_eq.
  - apply lookup_insert_eq.
  - intros k Hk.
    repeat (rewrite lookup_insert_ne;
            [|intros <-; apply Hk; set_solver]).
    reflexivity.
Qed.




(** *** Reloading the script set *)

Lemma dget_dset {V} (k k' : str) (v : V) (d : PyDict.t V) :
  PyDict.dget k (PyDict.dset k' v d) =
  if decide (k' = k) then Some v else PyDict.dget k d.
Proof.
  induction d as [|[k0 v0] d IH]; simpl.
  - destruct (decide (k' = k)); reflexivity.
  - destruct (decide (k0 = k')) as [->|Hne]; simpl.
    + destruct (decide (k' = k)); reflexivity.
    + destruct (decide (k0 = k)) as [->|Hne'].
      * destruct (decide (k' = k)); [congruence|reflexivity].
      * exact IH.
Qed.

(** The loop over the directory: a name is entered when it is a regular
    file with an execute bit; every other entry of the cache stays. *)
Lemma load_entries_spec dir entries : forall w,
  fst (Service.load_entries dir entries w) = Ok tt /\
  w_fs (snd (Service.load_entries dir entries w)) = w_fs w /\
  forall k,
    PyDict.dget k (w_script_cache (snd (Service.load_entries dir entries w))) =
    if bool_decide (k ∈ entries) && Service.is_script (w_fs w) dir k
    then Some (Service.path_join dir k)
    else PyDict.dget k (w_script_cache w).
Proof.
  induction entries as [|name rest IH]; intros w.
  - simpl. repeat split.
  - set (step := match w_fs w !! Service.path_join dir name with
                 | Some (File st_mode _) =>
                     if Service.executable st_mode then
                       modify (set_script_cache
                                 (PyDict.dset name
                                    (Service.path_join dir name))) >>
                       logging INFO (lit "Loaded script: " ++ name)
                     else ret tt
                 | _ => ret tt
                 end).
    assert (Hstep : fst (step w) = Ok tt /\
                    w_fs (snd (step w)) = w_fs w /\
                    forall k, PyDict.dget k (w_script_cache (snd (step w))) =
                      if Service.is_script (w_fs w) dir name
                      then if decide (name = k)
                           then Some (Service.path_join dir name)
                           else PyDict.dget k (w_script_cache w)
                      else PyDict.dget k (w_script_cache w)).
    { subst step. unfold Service.is_script.
      destruct (w_fs w !! Service.path_join dir name) as [[|mode text]|];
        try (repeat split; reflexivity).
      destruct (Service.executable mode); [|repeat split; reflexivity].
      repeat split. intros k. simpl. apply dget_dset. }
    destruct Hstep as (Hok & Hfs & Hcache).
    assert (Heq : Service.load_entries dir (name :: rest) w =
                  Service.load_entries dir rest (snd (step w))).
    { change (match step w with
              | (Ok _, s') => Service.load_entries dir rest s'
              | (Raise e, s') => (Raise e, s')
              end = Service.load_entries dir rest (snd (step w))).
      destruct (step w) as [[[]|e] w1]; [reflexivity|discriminate]. }
    rewrite Heq. clear Heq.
    set (w1 := snd (step w)) in *.
    destruct (IH w1) as (IHok & IHfs & IHcache).
    split; [assumption|]. split; [congruence|].
    intros k. rewrite IHcache, Hfs, Hcache.
    destruct (decide (name = k)) as [->|Hne].
    + rewrite (bool_decide_eq_true_2 (k ∈ k :: rest))
        by (apply elem_of_cons; left; reflexivity).
      destruct (Service.is_script (w_fs w) dir k);
        rewrite ?andb_true_r, ?andb_false_r; simpl;
        destruct (bool_decide (k ∈ rest)); reflexivity.
    + assert (Hmem : bool_decide (k ∈ name :: rest) = bool_decide (k ∈ rest)).
      { apply bool_decide_ext. rewrite elem_of_cons. intuition congruence. }
      rewrite Hmem.
      destruct (bool_decide (k ∈ rest) && Service.is_script (w_fs w) dir k);
        [reflexivity|].
      destruct (Service.is_script (w_fs w) dir name); reflexivity.
Qed.

(** The path stored for a script is the one pathlib prints for the entry:
    the configured directory in its normal form, then the file name.  At
    the default directory [./scripts] the script [greet] is stored as
    [scripts/greet]; in the current directory it is stored under its bare
    name, and in the root directory as [/greet]. *)
Lemma path_join_normalises :
  Service.path_join (PyPath.Path (lit "./scripts")) (lit "greet")
    = lit "scripts/greet" /\
  Service.path_join (PyPath.Path (lit "scripts//bin/")) (lit "greet")
    = lit "scripts/bin/greet" /\
  Service.path_join (PyPath.Path (lit ".")) (lit "greet") = lit "greet" /\
  Service.path_join (PyPath.Path (lit "/")) (lit "greet") = lit "/greet" /\
  Service.path_join (PyPath.Path (lit "../scripts")) (lit "greet")
    = lit "../scripts/greet".
Proof. vm_compute. repeat split; reflexivity. Qed.



(** *** Reading a command off a chat message *)

Lemma startswith_app (p r : str) : startswith (p ++ r) p = true.
Proof.
  induction p as [|c p IH]; [reflexivity|].
  simpl. rewrite N.eqb_refl. exact IH.
Qed.

(** A message whose trimmed text does not begin with the prefix is ignored
    by the service handler: nothing is run, sent or logged. *)
Lemma handle_service_message_without_prefix config message w :
  startswith (strip (msg_content message)) (prefix (bot config)) = false ->
  Service._handle_service_message config message w = (Ok tt, w).
Proof.
  intros H. unfold Service._handle_service_message, Service.parse_command.
  cbn zeta. rewrite H. reflexivity.
Qed.

(** What the handler reads off a text that begins with the prefix: the
    tokens of the text without its first character, whatever the length of
    the prefix. *)
Lemma parse_command_drops_one_character config text remainder :
  strip text = prefix (bot config) ++ remainder ->
  Service.parse_command config text =
  match split (strip (drop 1 (prefix (bot config) ++ remainder))) with
  | [] => None
  | command :: args => Some (command, args)
  end.
Proof.
  intros H. unfold Service.parse_command. cbn zeta.
  rewrite H, startswith_app. reflexivity.
Qed.

(** With a prefix of one character, exactly the prefix is taken off. *)
Lemma parse_command_one_character_prefix config text c remainder :
  prefix (bot config) = [c] ->
  strip text = prefix (bot config) ++ remainder ->
  Service.parse_command config text =
  match split (strip remainder) with
  | [] => None
  | command :: args => Some (command, args)
  end.
Proof.
  intros Hp H. rewrite (parse_command_drops_one_character _ _ _ H), Hp.
  reflexivity.
Qed.

(** C6 at the prefix [!!] and the chat message [!!greet world], with the
    script [greet] loaded.  One character is taken off instead of the
    prefix: the command read is [!greet], not [greet]; the script is not
    run and the reply is the unknown-command text.  With the prefix [!] the
    message [!greet world] runs the script with the argument [world]. *)
Theorem C6_long_prefix_not_stripped :
  let config := Sample.config_with "!!" (Some 42) [] in
  let r := Service._handle_service_message config
             (Sample.message_from Sample.alice 42 "!!greet world")
             Sample.greet_world in
  let r' := Service._handle_service_message Sample.config
              (Sample.message_from Sample.alice 42 "!greet world")
              Sample.greet_world in
  Service.parse_command config (lit "!!greet world") =
    Some (lit "!greet", [lit "world"]) /\
  d_outbox (w_discord (snd r)) =
    [(42, lit "Unknown command: !greet. Use 'help' for available commands.")]
  /\ w_procs (snd r) = [] /\
  Service.parse_command Sample.config (lit "!greet world") =
    Some (lit "greet", [lit "world"]) /\
  d_outbox (w_discord (snd r')) = [(42, lit "hi")] /\
  map (fun p => (sp_program (p_request p), sp_args (p_request p)))
      (w_procs (snd r')) = [(lit "scripts/greet", [lit "world"])].
Proof. vm_compute. repeat split; reflexivity. Qed.

(** ** The socket protocol ([SocketIO]) *)

(** *** Length prefixes *)

Lemma to_N_byte_of (n : N) : (n < 256)%N -> Byte.to_N (byte_of n) = n.
Proof.
  intros H. unfold byte_of.
  destruct (Byte.of_N n) as [b|] eqn:E.
  - apply Byte.to_of_N, E.
  - apply Byte.of_N_None_iff in E. lia.
Qed.

Lemma from_bytes_to_bytes4 (n : N) :
  (n < 4294967296)%N ->
  exists bs, to_bytes4 n = Some bs /\ length bs = 4%nat /\ from_bytes bs = n.
Proof.
  intros H. unfold to_bytes4.
  apply N.ltb_lt in H as Hb. rewrite Hb. eexists. split; [reflexivity|].
  split; [reflexivity|].
  unfold from_bytes. cbn [fold_left].
  rewrite !to_N_byte_of.
  - zify. Z.to_euclidean_division_equations. lia.
  - apply N.mod_lt. discriminate.
  - apply N.mod_lt. discriminate.
  - apply N.mod_lt. discriminate.
  - zify. Z.to_euclidean_division_equations. lia.
Qed.

Lemma to_bytes4_overflow (n : N) :
  (4294967296 <= n)%N -> to_bytes4 n = None.
Proof.
  intros H. unfold to_bytes4. apply N.ltb_ge in H. rewrite H. reflexivity.
Qed.

(** *** Reading frames *)

Arguments from_bytes : simpl never.

(** A read of [n] bytes when at least [n] bytes are buffered. *)
Lemma read_buffered (n : nat) (data rest : list byte) segments :
  length data = n ->
  SocketIO.read n
    {| SocketIO.buffer := data ++ rest; SocketIO.incoming := segments |} =
  (data, {| SocketIO.buffer := rest; SocketIO.incoming := segments |}).
Proof.
  intros <-. unfold SocketIO.read.
  destruct data as [|b data]; [destruct rest; reflexivity|].
  cbn [length SocketIO.buffer SocketIO.incoming app].
  change (b :: data ++ rest) with ((b :: data) ++ rest).
  change (Datatypes.S (length data)) with (length (b :: data)).
  rewrite take_app_length, drop_app_length. reflexivity.
Qed.

(** A read at the end of the stream when fewer bytes are left than asked
    for: what is left. *)
Lemma read_short (n : nat) (data : list byte) :
  (length data < n)%nat ->
  SocketIO.read n {| SocketIO.buffer := data; SocketIO.incoming := [] |} =
  (data, {| SocketIO.buffer := []; SocketIO.incoming := [] |}).
Proof.
  intros H. unfold SocketIO.read.
  destruct n as [|n]; [lia|].
  destruct data as [|b data]; [reflexivity|].
  cbn [SocketIO.buffer SocketIO.incoming].
  rewrite take_ge, drop_ge by (simpl in *; lia). reflexivity.
Qed.

(** The server reads back the payload of a frame that has arrived: the
    frame of [encode] is the four length bytes and then the payload, and
    [read_frame] yields exactly the payload and leaves what follows. *)
Lemma read_frame_roundtrip (payload rest : list byte) segments w wr :
  (N.of_nat (length payload) < 4294967296)%N ->
  exists prefix,
    to_bytes4 (N.of_nat (length payload)) = Some prefix /\
    length prefix = 4%nat /\
    SocketIO.read_frame
      (w, {| SocketIO.reader :=
               {| SocketIO.buffer := prefix ++ payload ++ rest;
                  SocketIO.incoming := segments |};
             SocketIO.writer := wr |}) =
    (Ok (Some payload),
     (w, {| SocketIO.reader :=
              {| SocketIO.buffer := rest; SocketIO.incoming := segments |};
            SocketIO.writer := wr |})).
Proof.
  intros Hlen.
  destruct (from_bytes_to_bytes4 _ Hlen) as (prefix & Hpre & Hfour & Hval).
  exists prefix. split; [exact Hpre|]. split; [exact Hfour|].
  unfold SocketIO.read_frame, bind at 1, SocketIO.reader_read at 1.
  cbn [fst snd SocketIO.reader SocketIO.writer].
  rewrite (read_buffered 4 prefix) by exact Hfour. cbn [fst snd].
  destruct prefix as [|b0 prefix]; [discriminate|].
  rewrite Hval. rewrite Nat2N.id.
  unfold bind, SocketIO.reader_read.
  cbn [fst snd SocketIO.reader SocketIO.writer].
  rewrite (read_buffered _ payload) by reflexivity. cbn [fst snd].
  rewrite N.eqb_refl. reflexivity.
Qed.

(** A stream that ends within the payload gives no frame: the loop breaks. *)
Lemma read_frame_truncated (payload : list byte) (k : nat) w wr :
  (N.of_nat (length payload) < 4294967296)%N ->
  (k < length payload)%nat ->
  exists prefix,
    to_bytes4 (N.of_nat (length payload)) = Some prefix /\
    fst (SocketIO.read_frame
           (w, {| SocketIO.reader :=
                    {| SocketIO.buffer := prefix ++ take k payload;
                       SocketIO.incoming := [] |};
                  SocketIO.writer := wr |})) = Ok None.
Proof.
  intros Hlen Hk.
  destruct (from_bytes_to_bytes4 _ Hlen) as (prefix & Hpre & Hfour & Hval).
  exists prefix. split; [exact Hpre|].
  unfold SocketIO.read_frame, bind at 1, SocketIO.reader_read at 1.
  cbn [fst snd SocketIO.reader SocketIO.writer].
  rewrite (read_buffered 4 prefix) by exact Hfour. cbn [fst snd].
  destruct prefix as [|b0 prefix]; [discriminate|].
  rewrite Hval. rewrite Nat2N.id.
  unfold bind, SocketIO.reader_read.
  cbn [fst snd SocketIO.reader SocketIO.writer].
  rewrite read_short by (rewrite length_take; lia). cbn [fst snd].
  rewrite length_take.
  replace (N.of_nat (k `min` length payload) =? N.of_nat (length payload))%N
    with false; [reflexivity|].
  symmetry. apply N.eqb_neq. lia.
Qed.

(** [read] returns what is there as soon as one byte is there: when the
    two payload bytes of a frame come in two segments and the second has not
    come in when the first is read, the server takes the frame for cut short
    and breaks the loop, although the whole frame is on its way. *)
Lemma read_frame_split_arrival :
  fst (SocketIO.read_frame
         (Sample.mailbox_world,
          SocketIO.fresh_conn [[x00; x00; x00; x02; x68]; [x69]])) = Ok None /\
  fst (SocketIO.read_frame
         (Sample.mailbox_world,
          SocketIO.fresh_conn [[x00; x00; x00; x02; x68; x69]]))
    = Ok (Some [x68; x69]).
Proof. vm_compute. split; reflexivity. Qed.

Lemma wait_for_data_pending (segments : list (list byte)) :
  (length (fst (SocketIO.wait_for_data segments))
   + length (concat (snd (SocketIO.wait_for_data segments))))%nat =
  length (concat segments).
Proof.
  induction segments as [|seg rest IH]; [reflexivity|].
  destruct seg as [|b seg]; [exact IH|].
  simpl. rewrite !length_app. reflexivity.
Qed.

(** A read takes off the reader exactly the bytes it returns. *)
Lemma read_pending (n : nat) (r : SocketIO.StreamReader) :
  (length (fst (SocketIO.read n r)) + SocketIO.pending (snd (SocketIO.read n r)))%nat
  = SocketIO.pending r.
Proof.
  unfold SocketIO.read, SocketIO.pending.
  destruct n as [|n]; [reflexivity|].
  cbn [fst snd SocketIO.buffer SocketIO.incoming].
  destruct (SocketIO.buffer r) as [|b buf] eqn:Hbuf.
  - cbn [SocketIO.buffer SocketIO.incoming].
    pose proof (wait_for_data_pending (SocketIO.incoming r)) as H.
    pose proof (take_drop (Datatypes.S n)
                  (fst (SocketIO.wait_for_data (SocketIO.incoming r)))) as Htd.
    apply (f_equal length) in Htd. rewrite length_app in Htd.
    change (length (@nil byte)) with 0%nat. lia.
  - rewrite Hbuf.
    pose proof (take_drop (Datatypes.S n) (b :: buf)) as Htd.
    apply (f_equal length) in Htd. rewrite length_app in Htd. lia.
Qed.

(** A frame read has taken at least one byte off the reader; [read_frame]
    raises nothing. *)
Lemma read_frame_consumes st st' payload :
  SocketIO.read_frame st = (Ok (Some payload), st') ->
  (SocketIO.pending (SocketIO.reader (snd st')) <
   SocketIO.pending (SocketIO.reader (snd st)))%nat.
Proof.
  unfold SocketIO.read_frame, bind, SocketIO.reader_read.
  cbn [fst snd SocketIO.reader SocketIO.writer].
  pose proof (read_pending 4 (SocketIO.reader (snd st))) as H4.
  destruct (SocketIO.read 4 (SocketIO.reader (snd st)))
    as [length_data r1].
  cbn [fst snd] in *.
  destruct length_data as [|b bs]; [discriminate|].
  cbn [fst snd SocketIO.reader SocketIO.writer].
  pose proof (read_pending (N.to_nat (from_bytes (b :: bs))) r1) as Hn.
  destruct (SocketIO.read (N.to_nat (from_bytes (b :: bs))) r1)
    as [message_data r2].
  cbn [fst snd] in *.
  destruct (negb _); [discriminate|].
  intros [= _ <-]. cbn [snd SocketIO.reader]. simpl length in H4. lia.
Qed.

(** C7 at a reply stream that declares five payload bytes and ends after
    two ([he]).  The server's reader gives no frame for such a stream, but
    [send_socket_message] has no check of the length read: it decodes the
    two bytes and returns them as the response. *)
Theorem C7_client_decodes_partial_payload :
  let stream := [[x00; x00; x00; x05; x68; x65]] in
  let r := SocketIO.send_socket_message (Ok (SocketIO.fresh_conn stream))
             (lit "{}") (Sample.mailbox_world, SocketIO.fresh_conn []) in
  fst r = Ok (Some (lit "he")) /\
  from_bytes [x00; x00; x00; x05] = 5%N /\
  fst (SocketIO.read_frame (Sample.mailbox_world, SocketIO.fresh_conn stream))
    = Ok None.
Proof. vm_compute. repeat split; reflexivity. Qed.

(** *** Requests the server cannot read *)

Section ProtocolProperties.
Variable json_loads : str -> option json.
Variable json_dumps : json -> str.
Variable container_str : json -> str.

Let process := SocketIO._process_socket_message json_loads json_dumps
                 container_str.
Let round := SocketIO.client_round json_loads json_dumps container_str.

(** A text that is not JSON is answered with the invalid-JSON error. *)
Lemma process_socket_message_invalid_json config message w :
  json_loads message = None ->
  process config message w =
  (Ok (json_dumps
         (JDict [(lit "error", JStr (lit "Invalid JSON message"))])), w).
Proof.
  intros H. unfold process in *.
  unfold SocketIO._process_socket_message, try_except, bind.
  rewrite H. reflexivity.
Qed.

(** A JSON value that is no object is answered with an error as well. *)
Lemma process_socket_message_not_an_object config message v w :
  json_loads message = Some v ->
  (forall d, v <> JDict d) ->
  process config message w =
  (Ok (json_dumps
         (JDict [(lit "error",
                  JStr (lit "'" ++ SocketIO.type_name v
                        ++ lit "' object has no attribute 'get'"))])), w).
Proof.
  intros H Hv. unfold process in *.
  unfold SocketIO._process_socket_message, try_except, bind.
  rewrite H. cbn [SocketIO.of_option ret].
  destruct v; try reflexivity. exfalso. eapply Hv. reflexivity.
Qed.

(** An object whose command is none of [send], [status], [get_messages]
    is answered with an error that names the command. *)
Lemma process_socket_message_unknown_command config message d w :
  json_loads message = Some (JDict d) ->
  let command := match PyDict.dget (lit "command") d with
                 | Some v => v
                 | None => JNull
                 end in
  SocketIO.is_str command "send" = false ->
  SocketIO.is_str command "status" = false ->
  SocketIO.is_str command "get_messages" = false ->
  process config message w =
  (Ok (json_dumps
         (JDict [(lit "error",
                  JStr (lit "Unknown command: "
                        ++ SocketIO.format_value container_str command))])),
   w).
Proof.
  intros H command H1 H2 H3. unfold process in *.
  unfold SocketIO._process_socket_message, try_except, bind.
  rewrite H. cbn [SocketIO.of_option ret SocketIO.data_get].
  fold command. rewrite H1, H2, H3. reflexivity.
Qed.

(** The scenario of the specification: the command [frobnicate]. *)
Lemma process_socket_message_frobnicate config message w :
  json_loads message =
    Some (JDict [(lit "command", JStr (lit "frobnicate"))]) ->
  process config message w =
  (Ok (json_dumps
         (JDict [(lit "error",
                  JStr (lit "Unknown command: frobnicate"))])), w).
Proof.
  intros H.
  apply (process_socket_message_unknown_command config message _ w H);
    reflexivity.
Qed.

(** [_process_socket_message] raises nothing that derives from
    [Exception]. *)
Lemma process_socket_message_catches config message w e w' :
  process config message w = (Raise e, w') ->
  is_Exception (exc_class e) = false.
Proof.
  unfold process in *. unfold SocketIO._process_socket_message, try_except.
  destruct (bind _ _ w) as [[a|e0] w0]; [discriminate|].
  destruct (is_Exception (exc_class e0)) eqn:E.
  - destruct (is_JSONDecodeError _); discriminate.
  - intros [= <- <-]. exact E.
Qed.

(** A round on a payload that is text: the answer of
    [_process_socket_message] is written back as a frame and the loop
    goes on, the connection stays open. *)
Lemma client_round_replies config st payload st1 message response w2
    frame :
  SocketIO.read_frame st = (Ok (Some payload), st1) ->
  utf8_decode payload = Some message ->
  process config message
    (snd (logging DEBUG (lit "Received socket message: " ++ message)
            (fst st1)))
    = (Ok response, w2) ->
  SocketIO.encode_frame (St := SocketIO.CState) response (w2, snd st1)
    = (Ok frame, (w2, snd st1)) ->
  round config st =
  (Ok SocketIO.Continue,
   (w2, {| SocketIO.reader := SocketIO.reader (snd st1);
           SocketIO.writer :=
             {| SocketIO.written :=
                  SocketIO.written (SocketIO.writer (snd st1)) ++ frame;
                SocketIO.closed :=
                  SocketIO.closed (SocketIO.writer (snd st1));
                SocketIO.lost :=
                  SocketIO.lost (SocketIO.writer (snd st1)) |} |})).
Proof.
  intros Hread Hdec Hproc Henc. unfold round, process in *.
  unfold SocketIO.client_round, bind. rewrite Hread, Hdec.
  cbn [SocketIO.of_option ret].
  unfold SocketIO.in_world. cbn [fst snd].
  rewrite Hproc. cbn [fst snd].
  rewrite Henc.
  reflexivity.
Qed.

(** Every round that goes on has taken at least one byte off the
    reader. *)
Lemma client_round_consumes config st st' :
  round config st = (Ok SocketIO.Continue, st') ->
  (SocketIO.pending (SocketIO.reader (snd st')) <
   SocketIO.pending (SocketIO.reader (snd st)))%nat.
Proof.
  unfold round, SocketIO.client_round. unfold bind at 1.
  destruct (SocketIO.read_frame st) as [[[payload|]|e] st1] eqn:Hread;
    try discriminate.
  apply read_frame_consumes in Hread.
  unfold bind at 1.
  destruct (utf8_decode payload) as [message|]; [|discriminate].
  cbn [SocketIO.of_option ret].
  unfold bind at 1, SocketIO.in_world at 1. cbn [fst snd].
  unfold bind at 1, SocketIO.in_world at 1.
  destruct (SocketIO._process_socket_message _ _ _ _ _ _)
    as [[response|e] w2]; [|discriminate].
  cbn [fst snd].
  unfold bind at 1, SocketIO.encode_frame, bind.
  destruct (utf8_encode response) as [data|]; [|discriminate].
  cbn [SocketIO.of_option ret].
  destruct (to_bytes4 _) as [pre|]; [|discriminate].
  cbn [SocketIO.of_option ret].
  unfold SocketIO.writer_write, modify. cbn [fst snd].
  intros [= <-]. exact Hread.
Qed.

(** The loop of [_handle_client] comes to its end within one round more
    than the reader has bytes: the bound on the rounds is never what
    stops it. *)
Lemma client_loop_ends running config : forall fuel st,
  (SocketIO.pending (SocketIO.reader (snd st)) < fuel)%nat ->
  fst (SocketIO.client_loop json_loads json_dumps container_str fuel
         running config st) <> Ok false.
Proof.
  induction fuel as [|fuel IH]; intros st Hlt; [lia|].
  cbn [SocketIO.client_loop].
  destruct running; [|discriminate]. cbn [negb].
  unfold bind.
  destruct (SocketIO.client_round _ _ _ _ st) as [[[]|e] st'] eqn:Hround;
    try discriminate.
  apply client_round_consumes in Hround.
  apply IH. lia.
Qed.

(** What a [try ... finally] returns is what its body returned. *)
Lemma try_finally_returns {St A} (m : M St A) (f : M St unit) s a :
  fst (try_finally m f s) = Ok a -> fst (m s) = Ok a.
Proof.
  unfold try_finally. destruct (m s) as [res s'].
  destruct (f s') as [[u|e] s'']; [intros H; exact H|discriminate].
Qed.

Lemma handle_client_ends running config client_addr st :
  fst (SocketIO._handle_client json_loads json_dumps container_str
         running config client_addr st) <> Ok false.
Proof.
  unfold SocketIO._handle_client. unfold bind at 1.
  unfold SocketIO.in_world at 1. cbn [fst snd].
  set (st0 := (_, snd st)).
  intros H. apply try_finally_returns in H. revert H.
  unfold try_except.
  pose proof (client_loop_ends running config
                (Datatypes.S (SocketIO.pending (SocketIO.reader (snd st0))))
                st0 (Nat.lt_succ_diag_r _)) as Hloop.
  destruct (SocketIO.client_loop _ _ _ _ _ _ st0) as [[b|e] st1].
  - simpl. intros H. apply Hloop. simpl. exact H.
  - destruct (is_Exception (exc_class e)); simpl; discriminate.
Qed.

(** C9 at the frame [00 00 00 01 ff]: its payload is no UTF-8 text, so it
    is not valid JSON.  The decoding of the payload stands outside the
    [try] of [_process_socket_message]: the [UnicodeDecodeError] ends the
    loop, nothing is written back and the connection is closed. *)
Theorem C9_undecodable_payload_closes_connection :
  let st := (Sample.mailbox_world, SocketIO.fresh_conn
                                     [[x00; x00; x00; x01; xff]]) in
  let r := SocketIO._handle_client json_loads json_dumps container_str
             true Sample.config (lit "client") st in
  utf8_decode [xff] = None /\
  fst r = Ok true /\
  SocketIO.written (SocketIO.writer (snd (snd r))) = [] /\
  SocketIO.closed (SocketIO.writer (snd (snd r))) = true /\
  map fst (w_log (fst (snd r))) = [INFO; ERROR; INFO].
Proof. vm_compute. repeat split; reflexivity. Qed.
End ProtocolProperties.

(* ===================================================================== *)
(** * Further properties *)
(* ===================================================================== *)

(** ** Sending to the chat service *)

(** What [send_message] does, case by case. *)
Lemma send_message_eval (config : Config) (content : str)
    (channel : option Z) (w : World) :
  Bot.send_message config content channel w =
  match (if truthy_int channel then channel else channel_id (bot config)) with
  | None =>
      (Ok false, snd (logging ERROR (lit "No channel ID configured") w))
  | Some c =>
      if c =? 0 then
        (Ok false, snd (logging ERROR (lit "No channel ID configured") w))
      else if negb (existsb (Z.eqb c) (d_channels (w_discord w))) then
        (Ok false,
         snd (logging ERROR
                (lit "Channel " ++ str_int c ++ lit " not found") w))
      else
        match d_send_error (w_discord w) content with
        | None => (Ok true, snd (Bot.channel_send c content w))
        | Some e =>
            if is_Exception (exc_class e) then
              (Ok false,
               snd (logging ERROR
                      (lit "Error sending message: " ++ exc_text e) w))
            else (Raise e, w)
        end
  end.
Proof.
  unfold Bot.send_message, try_except.
  destruct (if truthy_int channel then channel else channel_id (bot config))
    as [c|]; [|reflexivity].
  destruct (c =? 0); [reflexivity|].
  unfold bind at 1, gets at 1. cbv beta iota.
  destruct (negb (existsb (Z.eqb c) (d_channels (w_discord w))));
    [reflexivity|].
  unfold bind, Bot.channel_send.
  destruct (d_send_error (w_discord w) content) as [e|]; [|reflexivity].
  destruct (is_Exception (exc_class e)); reflexivity.
Qed.

(** X1.  [send_message] reports what it did: when it returns [True] it has
    sent exactly this content, once, to the channel given (or else the
    configured one); when it returns [False] or lets a [BaseException]
    through it has sent nothing.  No exception derived from [Exception]
    gets out of it. *)
Theorem X1_send_message_reports_the_send (config : Config) (content : str)
    (channel : option Z) (w : World) :
  let r := Bot.send_message config content channel w in
  let target := if truthy_int channel then channel
                else channel_id (bot config) in
  d_outbox (w_discord (snd r)) =
    d_outbox (w_discord w) ++
    match fst r, target with
    | Ok true, Some c => [(c, content)]
    | _, _ => []
    end /\
  match fst r with
  | Raise e => is_Exception (exc_class e) = false
  | Ok _ => True
  end.
Proof.
  lazy zeta. rewrite send_message_eval.
  destruct (if truthy_int channel then channel else channel_id (bot config))
    as [c|]; [|simpl; rewrite app_nil_r; auto].
  destruct (c =? 0); [simpl; rewrite app_nil_r; auto|].
  destruct (negb (existsb (Z.eqb c) (d_channels (w_discord w))));
    [simpl; rewrite app_nil_r; auto|].
  unfold Bot.channel_send.
  destruct (d_send_error (w_discord w) content) as [e|]; [|simpl; auto].
  destruct (is_Exception (exc_class e)) eqn:E; simpl;
    rewrite app_nil_r; auto.
Qed.

(** What [get_channel_messages] does, case by case. *)
Lemma get_channel_messages_eval (config : Config) (limit : json)
    (w : World) :
  Bot.get_channel_messages config limit w =
  match channel_id (bot config) with
  | None =>
      (Ok [], snd (logging ERROR (lit "No channel ID configured") w))
  | Some c =>
      if c =? 0 then
        (Ok [], snd (logging ERROR (lit "No channel ID configured") w))
      else if negb (existsb (Z.eqb c) (d_channels (w_discord w))) then
        (Ok [],
         snd (logging ERROR
                (lit "Channel " ++ str_int c ++ lit " not found") w))
      else
        match d_history (w_discord w) limit with
        | Ok messages => (Ok messages, w)
        | Raise e =>
            if is_Exception (exc_class e) then
              (Ok [],
               snd (logging ERROR
                      (lit "Error getting channel messages: "
                       ++ exc_text e) w))
            else (Raise e, w)
        end
  end.
Proof.
  unfold Bot.get_channel_messages, try_except.
  destruct (channel_id (bot config)) as [c|]; [|reflexivity].
  destruct (c =? 0); [reflexivity|].
  unfold bind at 1, gets at 1. cbv beta iota.
  destruct (negb (existsb (Z.eqb c) (d_channels (w_discord w))));
    [reflexivity|].
  destruct (d_history (w_discord w) limit) as [ms|e]; [reflexivity|].
  destruct (is_Exception (exc_class e)); reflexivity.
Qed.

(** X2.  [get_channel_messages] changes nothing but the log, raises no
    exception derived from [Exception], and returns the empty list when no
    channel is configured (none, or [0]), when the client does not know the
    channel, and when reading the history fails with such an exception. *)
Theorem X2_get_channel_messages_reads_only (config : Config) (limit : json)
    (w : World) :
  let r := Bot.get_channel_messages config limit w in
  w_discord (snd r) = w_discord w /\
  w_fs (snd r) = w_fs w /\
  w_procs (snd r) = w_procs w /\
  w_script_cache (snd r) = w_script_cache w /\
  snd r = set_log (fun _ => w_log (snd r)) w /\
  fst r =
    match channel_id (bot config) with
    | Some c =>
        if (c =? 0) || negb (existsb (Z.eqb c) (d_channels (w_discord w)))
        then Ok []
        else match d_history (w_discord w) limit with
             | Ok messages => Ok messages
             | Raise e => if is_Exception (exc_class e) then Ok []
                          else Raise e
             end
    | None => Ok []
    end.
Proof.
  lazy zeta. rewrite get_channel_messages_eval.
  destruct (channel_id (bot config)) as [c|];
    [|repeat split; destruct w; reflexivity].
  destruct (c =? 0); [repeat split; destruct w; reflexivity|].
  destruct (negb (existsb (Z.eqb c) (d_channels (w_discord w))));
    [repeat split; destruct w; reflexivity|].
  destruct (d_history (w_discord w) limit) as [ms|e];
    [repeat split; destruct w; reflexivity|].
  destruct (is_Exception (exc_class e)); repeat split; destruct w;
    reflexivity.
Qed.

Lemma send_message_up config c content w :
  service_up config c w ->
  Bot.send_message config content None w =
  (Ok true, snd (Bot.channel_send c content w)) /\
  d_outbox (w_discord (snd (Bot.channel_send c content w))) =
    d_outbox (w_discord w) ++ [(c, content)] /\
  w_log (snd (Bot.channel_send c content w)) = w_log w /\
  w_fs (snd (Bot.channel_send c content w)) = w_fs w /\
  w_files (snd (Bot.channel_send c content w)) = w_files w /\
  service_up config c (snd (Bot.channel_send c content w)).
Proof.
  intros (Hc & Hnz & Hknown & Hsend).
  rewrite send_message_eval. cbn [truthy_int]. rewrite Hc.
  apply Z.eqb_neq in Hnz. rewrite Hnz, Hknown, Hsend. cbn [negb].
  unfold Bot.channel_send. rewrite Hsend. cbn [snd].
  repeat split; try assumption; try reflexivity.
  - apply Z.eqb_neq, Hnz.
Qed.

Lemma service_up_log config c w f :
  service_up config c w -> service_up config c (set_log f w).
Proof. intros H. exact H. Qed.

(** ** Standard input ([StdinIO._read_stdin]) *)

Lemma read_stdin_end config rest w :
  StdinIO._read_stdin config true (Ok [] :: rest) w = (Ok tt, w).
Proof. reflexivity. Qed.

Lemma read_stdin_blank config line rest w :
  line <> [] -> strip line = [] ->
  StdinIO._read_stdin config true (Ok line :: rest) w =
  StdinIO._read_stdin config true rest w.
Proof.
  intros Hne Hstrip. cbn [StdinIO._read_stdin negb head].
  unfold bind at 1, StdinIO.stdin_round, try_except.
  unfold bind at 1, ret at 1.
  destruct line as [|ch line]; [congruence|].
  rewrite Hstrip. reflexivity.
Qed.

Lemma read_stdin_send config c line rest w :
  service_up config c w -> strip line <> [] ->
  StdinIO._read_stdin config true (Ok line :: rest) w =
  StdinIO._read_stdin config true rest
    (snd (logging DEBUG (lit "Sent message to Discord: " ++ strip line)
            (snd (Bot.channel_send c (strip line) w)))).
Proof.
  intros Hup Hstrip. cbn [StdinIO._read_stdin negb head].
  unfold bind at 1, StdinIO.stdin_round, try_except.
  unfold bind at 1, ret at 1.
  destruct line as [|ch line]; [exfalso; apply Hstrip; reflexivity|].
  destruct (strip (ch :: line)) as [|t ts] eqn:Hs; [congruence|].
  destruct (send_message_up config c (t :: ts) w Hup) as (Hsend & _).
  unfold bind at 1. rewrite Hsend. reflexivity.
Qed.

(** X3.  With a chat service that takes every message, [_read_stdin]
    forwards the lines of standard input up to its end, in order, each
    trimmed, leaving out the blank ones, and nothing else. *)
Theorem X3_read_stdin_forwards_lines (config : Config) (c : Z)
    (lines : list str) (w : World) :
  service_up config c w ->
  let r := StdinIO._read_stdin config true (map Ok lines) w in
  fst r = Ok tt /\
  d_outbox (w_discord (snd r)) =
    d_outbox (w_discord w)
    ++ map (pair c) (StdinIO.forwarded (StdinIO.lines_read lines)).
Proof.
  revert w. induction lines as [|line rest IH]; intros w Hup; lazy zeta.
  - simpl. rewrite app_nil_r. split; reflexivity.
  - cbn [map].
    destruct line as [|ch line].
    { rewrite read_stdin_end. simpl. rewrite app_nil_r. auto. }
    cbn [StdinIO.lines_read StdinIO.forwarded].
    destruct (strip (ch :: line)) as [|t ts] eqn:Hstrip.
    + rewrite read_stdin_blank by (assumption || discriminate).
      apply (IH w Hup).
    + rewrite (read_stdin_send config c) by (assumption || congruence).
      rewrite Hstrip.
      destruct (send_message_up config c (t :: ts) w Hup)
        as (_ & Hout & _ & _ & _ & Hup').
      set (w1 := snd (logging _ _ _)).
      specialize (IH w1 (service_up_log _ _ _ _ Hup')).
      lazy zeta in IH. destruct IH as (IHok & IHout).
      split; [exact IHok|].
      rewrite IHout. subst w1. unfold logging, modify.
      cbn [snd set_log w_discord].
      rewrite Hout. cbn [map]. rewrite <- app_assoc. reflexivity.
Qed.

Lemma X3_read_stdin_forwards_lines_witness :
  let r := StdinIO._read_stdin Sample.config true
             (map Ok [lit "hello "; [10%N]; lit "  bye"; []; lit "late"])
             Sample.mailbox_world in
  fst r = Ok tt /\
  d_outbox (w_discord (snd r)) =
    d_outbox (w_discord Sample.mailbox_world)
    ++ map (pair 42)
         (StdinIO.forwarded
            (StdinIO.lines_read
               [lit "hello "; [10%N]; lit "  bye"; []; lit "late"])).
Proof.
  apply (X3_read_stdin_forwards_lines Sample.config 42
           [lit "hello "; [10%N]; lit "  bye"; []; lit "late"]
           Sample.mailbox_world).
  repeat split; try reflexivity. simpl. lia.
Defined.

(** X4.  A read of standard input that fails with an exception derived
    from [Exception] ends the loop: the failure is logged and no later line
    is forwarded. *)
Theorem X4_read_stdin_stops_at_failed_read (config : Config) (e : PyExc)
    (later : list (Result str)) (w : World) :
  is_Exception (exc_class e) = true ->
  StdinIO._read_stdin config true (Raise e :: later) w =
  (Ok tt,
   set_log (fun l => l ++ [(ERROR, lit "Error reading from stdin: "
                                   ++ exc_text e)]) w).
Proof.
  intros He. cbn [StdinIO._read_stdin negb head].
  unfold bind at 1, StdinIO.stdin_round, try_except.
  unfold bind at 1, raise. rewrite He. reflexivity.
Qed.

Lemma X4_read_stdin_stops_at_failed_read_witness :
  d_outbox (w_discord (snd
    (StdinIO._read_stdin Sample.config true
       [Raise (mkExc ValueError (lit "I/O operation on closed file."));
        Ok (lit "late")] Sample.mailbox_world))) = [].
Proof.
  rewrite (X4_read_stdin_stops_at_failed_read Sample.config
             (mkExc ValueError (lit "I/O operation on closed file."))
             [Ok (lit "late")] Sample.mailbox_world); reflexivity.
Defined.

(** ** The file mailbox, further *)






(** X7.  [_process_input_file] never changes a file, whatever the mailbox
    holds and whatever the send does, and no exception derived from
    [Exception] gets out of it. *)
Theorem X7_process_input_file_changes_no_file (config : Config) (w : World) :
  let r := FileIO._process_input_file config w in
  w_fs (snd r) = w_fs w /\
  match fst r with
  | Raise e => is_Exception (exc_class e) = false
  | Ok _ => True
  end.
Proof.
  lazy zeta. split; [apply process_input_file_keeps_fs|].
  unfold FileIO._process_input_file, try_except.
  match goal with
  | |- context [match ?m w with _ => _ end] => destruct (m w) as [[u|e] w']
  end; [exact I|].
  destruct (is_Exception (exc_class e)) eqn:E; [exact I|exact E].
Qed.

(** ** The socket protocol, further *)

Lemma to_bytes4_bound (n : N) (bs : list byte) :
  to_bytes4 n = Some bs -> (n < 4294967296)%N.
Proof.
  unfold to_bytes4. destruct (N.ltb_spec n 4294967296); [auto|discriminate].
Qed.

(** X8.  The four-byte big-endian length prefix: [to_bytes(4, 'big')]
    gives four bytes that [int.from_bytes] reads back as the same number
    for every length below 2^32, and raises ([None]) from 2^32 on. *)
Theorem X8_length_prefix_roundtrip (n : N) :
  match to_bytes4 n with
  | Some bs => (n < 4294967296)%N /\ length bs = 4%nat /\ from_bytes bs = n
  | None => (4294967296 <= n)%N
  end.
Proof.
  destruct (N.lt_ge_cases n 4294967296) as [Hlt|Hge].
  - destruct (from_bytes_to_bytes4 n Hlt) as (bs & -> & Hlen & Hval). auto.
  - rewrite to_bytes4_overflow by exact Hge. exact Hge.
Qed.

(** X9.  The server reads back what was framed: when the buffer holds the
    length prefix of a payload, the payload and whatever follows,
    [read_frame] yields exactly the payload and leaves what follows for the
    next round. *)
Theorem X9_server_reads_back_frame (payload prefix rest : list byte)
    (segments : list (list byte)) (w : World) (wr : SocketIO.StreamWriter) :
  to_bytes4 (N.of_nat (length payload)) = Some prefix ->
  SocketIO.read_frame
    (w, {| SocketIO.reader :=
             {| SocketIO.buffer := prefix ++ payload ++ rest;
                SocketIO.incoming := segments |};
           SocketIO.writer := wr |}) =
  (Ok (Some payload),
   (w, {| SocketIO.reader :=
            {| SocketIO.buffer := rest; SocketIO.incoming := segments |};
          SocketIO.writer := wr |})).
Proof.
  intros Hpre.
  pose proof (to_bytes4_bound _ _ Hpre) as Hlt.
  destruct (read_frame_roundtrip payload rest segments w wr Hlt)
    as (prefix' & Hpre' & _ & Hread).
  rewrite Hpre in Hpre'. injection Hpre' as <-. exact Hread.
Qed.

Lemma X9_server_reads_back_frame_witness :
  SocketIO.read_frame
    (Sample.mailbox_world,
     {| SocketIO.reader :=
          {| SocketIO.buffer := [x00; x00; x00; x02] ++ [x7b; x7d] ++ [x00];
             SocketIO.incoming := [] |};
        SocketIO.writer := {| SocketIO.written := [];
                              SocketIO.closed := false;
                              SocketIO.lost := None |} |}) =
  (Ok (Some [x7b; x7d]),
   (Sample.mailbox_world,
    {| SocketIO.reader :=
         {| SocketIO.buffer := [x00]; SocketIO.incoming := [] |};
       SocketIO.writer := {| SocketIO.written := [];
                             SocketIO.closed := false;
                              SocketIO.lost := None |} |})).
Proof.
  apply (X9_server_reads_back_frame [x7b; x7d] [x00; x00; x00; x02] [x00] []
           Sample.mailbox_world
           {| SocketIO.written := []; SocketIO.closed := false;
                              SocketIO.lost := None |}).
  reflexivity.
Defined.

(** X10.  A connection that ends within a payload gives the server no
    frame: with the length prefix and only the first [k] of the payload
    bytes before the end of the stream, [read_frame] breaks the loop. *)
Theorem X10_server_drops_truncated_frame (payload prefix : list byte)
    (k : nat) (w : World) (wr : SocketIO.StreamWriter) :
  to_bytes4 (N.of_nat (length payload)) = Some prefix ->
  (k < length payload)%nat ->
  fst (SocketIO.read_frame
         (w, {| SocketIO.reader :=
                  {| SocketIO.buffer := prefix ++ take k payload;
                     SocketIO.incoming := [] |};
                SocketIO.writer := wr |})) = Ok None.
Proof.
  intros Hpre Hk.
  pose proof (to_bytes4_bound _ _ Hpre) as Hlt.
  destruct (read_frame_truncated payload k w wr Hlt Hk)
    as (prefix' & Hpre' & Hread).
  rewrite Hpre in Hpre'. injection Hpre' as <-. exact Hread.
Qed.

Lemma X10_server_drops_truncated_frame_witness :
  fst (SocketIO.read_frame
         (Sample.mailbox_world,
          {| SocketIO.reader :=
               {| SocketIO.buffer :=
                    [x00; x00; x00; x02] ++ take 1 [x7b; x7d];
                  SocketIO.incoming := [] |};
             SocketIO.writer := {| SocketIO.written := [];
                                   SocketIO.closed := false;
                              SocketIO.lost := None |} |})) = Ok None.
Proof.
  apply (X10_server_drops_truncated_frame [x7b; x7d] [x00; x00; x00; x02] 1
           Sample.mailbox_world
           {| SocketIO.written := []; SocketIO.closed := false;
                              SocketIO.lost := None |}).
  - reflexivity.
  - simpl. lia.
Defined.

(** A [try ... except] whose handler raises nothing lets through only what
    it does not catch. *)
Lemma try_except_lets_through {St A} (m : M St A) catches h s e :
  (forall e' s', exists a, fst (h e' s') = Ok a) ->
  fst (try_except m catches h s) = Raise e ->
  catches (exc_class e) = false.
Proof.
  intros Hh. unfold try_except.
  destruct (m s) as [[a|e0] s']; [discriminate|].
  destruct (catches (exc_class e0)) eqn:E.
  - destruct (Hh e0 s') as (a & Ha). rewrite Ha. discriminate.
  - intros [= <-]. exact E.
Qed.

(** What the coroutines of a connection leave as it was: a coroutine that
    works on the world leaves the connection alone, and reading and writing
    leave the error the connection is lost with. *)
Lemma keeps_bind_conn {X A B} (proj : SocketIO.CState -> X)
    (m : M SocketIO.CState A) (k : A -> M SocketIO.CState B) :
  keeps proj m -> (forall a, keeps proj (k a)) -> keeps proj (bind m k).
Proof.
  intros Hm Hk s. unfold bind. specialize (Hm s).
  destruct (m s) as [[a|e] s']; simpl in *; [|assumption].
  rewrite Hk. assumption.
Qed.

Lemma in_world_keeps_lost {A} (m : M World A) :
  keeps (fun st => SocketIO.lost (SocketIO.writer (snd st)))
    (SocketIO.in_world m).
Proof. intros st. reflexivity. Qed.

Lemma encode_frame_keeps_lost (text : str) :
  keeps (fun st => SocketIO.lost (SocketIO.writer (snd st)))
    (SocketIO.encode_frame (St := SocketIO.CState) text).
Proof.
  intros st. unfold SocketIO.encode_frame, bind.
  destruct (utf8_encode text) as [data|]; [|reflexivity].
  cbn [SocketIO.of_option ret].
  destruct (to_bytes4 _); reflexivity.
Qed.

Lemma read_frame_keeps_lost :
  keeps (fun st => SocketIO.lost (SocketIO.writer (snd st)))
    SocketIO.read_frame.
Proof.
  intros st. unfold SocketIO.read_frame, bind, SocketIO.reader_read.
  cbn [fst snd].
  destruct (fst (SocketIO.read 4 (SocketIO.reader (snd st)))); [reflexivity|].
  cbn [fst snd].
  match goal with |- context [if ?b then _ else _] => destruct b end;
    reflexivity.
Qed.

Lemma client_round_keeps_lost (json_loads : str -> option json)
    (json_dumps container_str : json -> str) (config : Config) :
  keeps (fun st => SocketIO.lost (SocketIO.writer (snd st)))
    (SocketIO.client_round json_loads json_dumps container_str config).
Proof.
  unfold SocketIO.client_round.
  apply keeps_bind_conn; [apply read_frame_keeps_lost|].
  intros [payload|]; [|intros st; reflexivity].
  apply keeps_bind_conn.
  { destruct (utf8_decode payload); intros st; reflexivity. }
  intros message.
  apply keeps_bind_conn; [apply in_world_keeps_lost|]. intros _.
  apply keeps_bind_conn; [apply in_world_keeps_lost|]. intros response.
  apply keeps_bind_conn; [apply encode_frame_keeps_lost|]. intros frame.
  apply keeps_bind_conn; [|intros _ st; reflexivity].
  intros st. reflexivity.
Qed.

Lemma client_loop_keeps_lost (json_loads : str -> option json)
    (json_dumps container_str : json -> str) (running : bool)
    (config : Config) (fuel : nat) :
  keeps (fun st => SocketIO.lost (SocketIO.writer (snd st)))
    (SocketIO.client_loop json_loads json_dumps container_str fuel running
       config).
Proof.
  induction fuel as [|fuel IH]; cbn [SocketIO.client_loop];
    destruct running; cbn [negb]; try (intros st; reflexivity).
  apply keeps_bind_conn; [apply client_round_keeps_lost|].
  intros [|]; [intros st; reflexivity|exact IH].
Qed.

Lemma guarded_loop_keeps_lost (json_loads : str -> option json)
    (json_dumps container_str : json -> str) (running : bool)
    (config : Config) (text : PyExc -> str) :
  keeps (fun st => SocketIO.lost (SocketIO.writer (snd st)))
    (try_except
       (fun st => SocketIO.client_loop json_loads json_dumps container_str
                    (Datatypes.S (SocketIO.pending
                                    (SocketIO.reader (snd st))))
                    running config st)
       is_Exception
       (fun e => SocketIO.in_world (logging ERROR (text e)) >> ret true)).
Proof.
  intros st. unfold try_except.
  pose proof (client_loop_keeps_lost json_loads json_dumps container_str
                running config
                (Datatypes.S (SocketIO.pending (SocketIO.reader (snd st))))
                st) as Hloop.
  cbv beta in Hloop.
  destruct (SocketIO.client_loop _ _ _ _ _ _ st) as [[b|e] st1];
    cbn [fst snd] in *; [exact Hloop|].
  destruct (is_Exception (exc_class e)); exact Hloop.
Qed.

(** X11.  [_handle_client] always closes its writer, whatever the client
    sends and however the loop ends, and its loop ends by itself (by a break
    or by the end of the stream: one round more than the reader has bytes
    is never used up).  When the connection was lost with an
    error, [wait_closed()] in the [finally] raises that error again and it
    gets out of [_handle_client]; otherwise no exception derived from
    [Exception] gets out of it. *)
Theorem X11_handle_client_closes_writer (json_loads : str -> option json)
    (json_dumps container_str : json -> str) (running : bool)
    (config : Config) (client_addr : str) (st : SocketIO.CState) :
  let r := SocketIO._handle_client json_loads json_dumps container_str
             running config client_addr st in
  SocketIO.closed (SocketIO.writer (snd (snd r))) = true /\
  (forall st0,
     fst (SocketIO.client_loop json_loads json_dumps container_str
            (Datatypes.S (SocketIO.pending (SocketIO.reader (snd st0))))
            running config st0) <> Ok false) /\
  match SocketIO.lost (SocketIO.writer (snd st)) with
  | Some e => fst r = Raise e
  | None =>
      match fst r with
      | Ok ended => ended = true
      | Raise e => is_Exception (exc_class e) = false
      end
  end.
Proof.
  lazy zeta.
  assert (Hloop : forall st0 : SocketIO.CState,
            fst (SocketIO.client_loop json_loads json_dumps container_str
                   (Datatypes.S (SocketIO.pending
                                   (SocketIO.reader (snd st0))))
                   running config st0) <> Ok false).
  { intros st0. apply client_loop_ends. apply Nat.lt_succ_diag_r. }
  match goal with
  | |- ?closed /\ _ /\ ?outcome =>
      cut (closed /\ outcome);
        [intros [Hc Ho]; split; [exact Hc|split; [exact Hloop|exact Ho]]|]
  end.
  clear Hloop.
  pose proof (handle_client_ends json_loads json_dumps container_str
                running config client_addr st) as Hends.
  unfold SocketIO._handle_client in *.
  unfold bind at 1 in Hends. unfold bind at 1.
  unfold SocketIO.in_world at 1 in Hends. unfold SocketIO.in_world at 1.
  cbn [fst snd logging modify] in *.
  unfold try_finally in *.
  match goal with
  | |- context [try_except ?m ?c ?h ?s] =>
      set (guarded := try_except m c h) in *;
      assert (Hlost : SocketIO.lost (SocketIO.writer (snd (snd (guarded s))))
                      = SocketIO.lost (SocketIO.writer (snd st)))
        by apply (guarded_loop_keeps_lost json_loads json_dumps
                    container_str running config
                    (fun e => lit "Error handling client " ++ client_addr
                              ++ lit ": " ++ exc_text e) s);
      destruct (guarded s) as [res st1] eqn:Hguarded
  end.
  unfold bind, SocketIO.writer_close, SocketIO.writer_wait_closed, modify,
    SocketIO.in_world in *.
  cbn [fst snd SocketIO.writer SocketIO.closed SocketIO.lost logging modify]
    in *.
  rewrite ?Hguarded. cbn [fst snd SocketIO.writer SocketIO.lost].
  rewrite Hlost in Hends |- *.
  destruct (SocketIO.lost (SocketIO.writer (snd st))) as [e|];
    cbn [fst snd SocketIO.writer SocketIO.closed] in Hends |- *;
    (split; [reflexivity|]); [reflexivity|].
  destruct res as [[|]|e].
  - reflexivity.
  - exfalso. apply Hends. reflexivity.
  - subst guarded.
    eapply try_except_lets_through; [|rewrite Hguarded; reflexivity].
    intros e' s'. exists true. reflexivity.
Qed.

(** X12.  For a payload that is text, every request the server cannot
    serve is answered with an error reply and changes nothing: a text that
    is not JSON, a JSON value that is no object, and an object whose
    command is none of [send], [status] and [get_messages] (the reply then
    names the command). *)
Theorem X12_unserved_request_gets_error_reply
    (json_loads : str -> option json) (json_dumps container_str : json -> str)
    (config : Config) (message : str) (w : World) :
  let reply text := (Ok (json_dumps (JDict [(lit "error", JStr text)])), w) in
  let r := SocketIO._process_socket_message json_loads json_dumps
             container_str config message w in
  match json_loads message with
  | None => r = reply (lit "Invalid JSON message")
  | Some (JDict d) =>
      let command := match PyDict.dget (lit "command") d with
                     | Some v => v
                     | None => JNull
                     end in
      if SocketIO.is_str command "send" || SocketIO.is_str command "status"
         || SocketIO.is_str command "get_messages"
      then True
      else r = reply (lit "Unknown command: "
                      ++ SocketIO.format_value container_str command)
  | Some v =>
      r = reply (lit "'" ++ SocketIO.type_name v
                 ++ lit "' object has no attribute 'get'")
  end.
Proof.
  lazy zeta.
  destruct (json_loads message) as [v|] eqn:Hloads.
  - destruct v;
      try (apply (process_socket_message_not_an_object json_loads json_dumps
                    container_str config message _ w Hloads);
           intros d0; discriminate).
    destruct (SocketIO.is_str _ "send") eqn:H1; [exact I|].
    destruct (SocketIO.is_str _ "status") eqn:H2; [exact I|].
    destruct (SocketIO.is_str _ "get_messages") eqn:H3; [exact I|].
    cbn [orb].
    apply (process_socket_message_unknown_command json_loads json_dumps
             container_str config message d w Hloads H1 H2 H3).
  - apply process_socket_message_invalid_json, Hloads.
Qed.

(** X13.  The [status] command is answered with the connectivity and the
    running flag of the bot as they are, and changes nothing:
    [connected] is true only when the client is ready and the bot is
    running. *)
Theorem X13_status_reports_flags (json_loads : str -> option json)
    (json_dumps container_str : json -> str) (config : Config)
    (message : str) (d : list (str * json)) (w : World) :
  json_loads message = Some (JDict d) ->
  PyDict.dget (lit "command") d = Some (JStr (lit "status")) ->
  SocketIO._process_socket_message json_loads json_dumps container_str
    config message w =
  (Ok (json_dumps
         (JDict [(lit "connected",
                  JBool (d_ready (w_discord w) && w_is_running w));
                 (lit "running", JBool (w_is_running w))])), w).
Proof.
  intros Hloads Hcmd.
  unfold SocketIO._process_socket_message, try_except, bind.
  rewrite Hloads. cbn [SocketIO.of_option ret SocketIO.data_get].
  rewrite Hcmd. reflexivity.
Qed.

Lemma X13_status_reports_flags_witness :
  SocketIO._process_socket_message Sample.loads_status Sample.dumps_flags
    (fun _ => []) Sample.config (lit "{}") Sample.mailbox_world =
  (Ok (Sample.dumps_flags
         (JDict [(lit "connected", JBool true);
                 (lit "running", JBool true)])), Sample.mailbox_world).
Proof.
  apply (X13_status_reports_flags Sample.loads_status Sample.dumps_flags
           (fun _ => []) Sample.config (lit "{}")
           [(lit "command", JStr (lit "status"))] Sample.mailbox_world);
    reflexivity.
Defined.

Lemma send_message_lets_through config content channel w :
  match fst (Bot.send_message config content channel w) with
  | Raise e => is_Exception (exc_class e) = false
  | Ok _ => True
  end.
Proof.
  rewrite send_message_eval.
  destruct (if truthy_int channel then channel else channel_id (bot config))
    as [c|]; [|exact I].
  destruct (c =? 0); [exact I|].
  destruct (negb _); [exact I|].
  destruct (d_send_error (w_discord w) content) as [e|]; [|exact I].
  destruct (is_Exception (exc_class e)) eqn:E; [exact I|exact E].
Qed.

(** X14.  The [send] command hands the content to [send_message] once, and
    its reply tells what came of it: the [success] flag of the reply is the
    result of [send_message], next to the content as it was received; a
    failure of the send with an exception derived from [Exception] is
    impossible ([send_message] catches it), any other is let through. *)
Theorem X14_send_reply_reports_success (json_loads : str -> option json)
    (json_dumps container_str : json -> str) (config : Config)
    (message : str) (d : list (str * json)) (w : World) :
  json_loads message = Some (JDict d) ->
  PyDict.dget (lit "command") d = Some (JStr (lit "send")) ->
  let content := match PyDict.dget (lit "content") d with
                 | Some v => v
                 | None => JStr []
                 end in
  let sent := Bot.send_message config
                (SocketIO.content_text container_str content) None w in
  SocketIO._process_socket_message json_loads json_dumps container_str
    config message w =
  match fst sent with
  | Ok success =>
      (Ok (json_dumps (JDict [(lit "success", JBool success);
                              (lit "message", content)])), snd sent)
  | Raise e => (Raise e, snd sent)
  end.
Proof.
  intros Hloads Hcmd content sent.
  pose proof (send_message_lets_through config
                (SocketIO.content_text container_str content) None w) as Hexc.
  unfold SocketIO._process_socket_message, try_except, bind.
  rewrite Hloads. cbn [SocketIO.of_option ret SocketIO.data_get].
  rewrite Hcmd. cbn [SocketIO.is_str].
  rewrite bool_decide_eq_true_2 by reflexivity.
  fold content. fold sent. fold sent in Hexc.
  destruct sent as [[success|e] w']; cbn [fst snd] in *; [reflexivity|].
  rewrite Hexc. reflexivity.
Qed.

Lemma X14_send_reply_reports_success_witness :
  let r := SocketIO._process_socket_message Sample.loads_send
             Sample.dumps_flags (fun _ => []) Sample.config (lit "{}")
             Sample.mailbox_world in
  fst r = Ok (Sample.dumps_flags
                (JDict [(lit "success", JBool true);
                        (lit "message", JStr (lit "hi"))])) /\
  d_outbox (w_discord (snd r)) = [(42, lit "hi")].
Proof.
  rewrite (X14_send_reply_reports_success Sample.loads_send
             Sample.dumps_flags (fun _ => []) Sample.config (lit "{}")
             [(lit "command", JStr (lit "send"));
              (lit "content", JStr (lit "hi"))] Sample.mailbox_world);
    [|reflexivity|reflexivity].
  vm_compute. split; reflexivity.
Defined.

(** *** Text through a frame *)

Ltac div_lia := zify; Z.to_euclidean_division_equations; lia.

Lemma continuation_byte_of (n : N) :
  (n < 64)%N -> continuation (byte_of (128 + n)) = Some n.
Proof.
  intros H. unfold continuation. rewrite to_N_byte_of by lia.
  replace ((128 <=? 128 + n) && (128 + n <=? 191))%N with true.
  - f_equal. lia.
  - symmetry. apply andb_true_iff. split; apply N.leb_le; lia.
Qed.

(** One code point: what [encode] writes for it, [decode] reads back. *)
Lemma utf8_decode_encode_char (c : N) (bs rest : list byte) :
  utf8_encode_char c = Some bs ->
  utf8_decode (bs ++ rest) = option_map (cons c) (utf8_decode rest).
Proof.
  unfold utf8_encode_char.
  destruct (N.ltb_spec c 128) as [H1|H1].
  { intros [= <-]. cbn [app utf8_decode].
    rewrite to_N_byte_of by lia.
    destruct (N.ltb_spec c 128); [reflexivity|lia]. }
  destruct (N.ltb_spec c 2048) as [H2|H2].
  { intros [= <-]. cbn [app utf8_decode].
    rewrite to_N_byte_of by div_lia.
    destruct (N.ltb_spec (192 + c / 64) 128); [div_lia|].
    replace ((194 <=? 192 + c / 64) && (192 + c / 64 <=? 223))%N with true
      by (symmetry; apply andb_true_iff; split; apply N.leb_le; div_lia).
    rewrite continuation_byte_of by (apply N.mod_lt; discriminate).
    replace ((192 + c / 64 - 192) * 64 + c mod 64)%N with c by div_lia.
    reflexivity. }
  destruct ((55296 <=? c) && (c <=? 57343))%N eqn:Hsur; [discriminate|].
  destruct (N.ltb_spec c 65536) as [H3|H3].
  { intros [= <-]. cbn [app utf8_decode].
    rewrite to_N_byte_of by div_lia.
    destruct (N.ltb_spec (224 + c / 4096) 128); [div_lia|].
    replace ((194 <=? 224 + c / 4096) && (224 + c / 4096 <=? 223))%N
      with false
      by (symmetry; apply andb_false_iff; right; apply N.leb_gt; div_lia).
    replace ((224 <=? 224 + c / 4096) && (224 + c / 4096 <=? 239))%N
      with true
      by (symmetry; apply andb_true_iff; split; apply N.leb_le; div_lia).
    rewrite !continuation_byte_of by (apply N.mod_lt; discriminate).
    replace ((224 + c / 4096 - 224) * 4096 + (c / 64) mod 64 * 64
             + c mod 64)%N with c by div_lia.
    destruct (N.ltb_spec c 2048); [lia|]. rewrite Hsur. reflexivity. }
  destruct (N.leb_spec c 1114111) as [H4|H4]; [|discriminate].
  intros [= <-]. cbn [app utf8_decode].
  rewrite to_N_byte_of by div_lia.
  destruct (N.ltb_spec (240 + c / 262144) 128); [div_lia|].
  replace ((194 <=? 240 + c / 262144) && (240 + c / 262144 <=? 223))%N
    with false
    by (symmetry; apply andb_false_iff; right; apply N.leb_gt; div_lia).
  replace ((224 <=? 240 + c / 262144) && (240 + c / 262144 <=? 239))%N
    with false
    by (symmetry; apply andb_false_iff; right; apply N.leb_gt; div_lia).
  replace ((240 <=? 240 + c / 262144) && (240 + c / 262144 <=? 244))%N
    with true
    by (symmetry; apply andb_true_iff; split; apply N.leb_le; div_lia).
  rewrite !continuation_byte_of by (apply N.mod_lt; discriminate).
  replace ((240 + c / 262144 - 240) * 262144 + (c / 4096) mod 64 * 4096
           + (c / 64) mod 64 * 64 + c mod 64)%N with c by div_lia.
  destruct (N.ltb_spec c 65536); [lia|].
  destruct (N.ltb_spec 1114111 c); [lia|]. reflexivity.
Qed.

(** A text that [encode] takes is read back by [decode]. *)
Lemma utf8_decode_encode (s : str) (bs : list byte) :
  utf8_encode s = Some bs -> utf8_decode bs = Some s.
Proof.
  revert bs. induction s as [|c s IH]; intros bs.
  - intros [= <-]. reflexivity.
  - cbn [utf8_encode].
    destruct (utf8_encode_char c) as [cb|] eqn:Hc; [|discriminate].
    destruct (utf8_encode s) as [sb|]; [|discriminate].
    intros [= <-].
    rewrite (utf8_decode_encode_char c cb sb Hc), (IH sb eq_refl).
    reflexivity.
Qed.

(** X15.  Text through a frame: the frame that [send_socket_message] and
    the server's reply path build for a text ([encode_frame]) is read by
    the server's loop as one frame whose payload decodes to that very
    text, and what follows the frame is left for the next round. *)
Theorem X15_text_frame_roundtrip (text : str) (frame rest : list byte)
    (segments : list (list byte)) (st : SocketIO.CState) (w : World)
    (wr : SocketIO.StreamWriter) :
  fst (SocketIO.encode_frame text st) = Ok frame ->
  exists payload,
    SocketIO.read_frame
      (w, {| SocketIO.reader :=
               {| SocketIO.buffer := frame ++ rest;
                  SocketIO.incoming := segments |};
             SocketIO.writer := wr |}) =
    (Ok (Some payload),
     (w, {| SocketIO.reader :=
              {| SocketIO.buffer := rest; SocketIO.incoming := segments |};
            SocketIO.writer := wr |})) /\
    utf8_decode payload = Some text.
Proof.
  unfold SocketIO.encode_frame, bind.
  destruct (utf8_encode text) as [data|] eqn:Henc; [|discriminate].
  cbn [SocketIO.of_option ret].
  destruct (to_bytes4 (N.of_nat (length data))) as [prefix|] eqn:Hpre;
    [|discriminate].
  cbn [SocketIO.of_option ret fst]. intros [= <-].
  exists data. split; [|apply utf8_decode_encode, Henc].
  pose proof (to_bytes4_bound _ _ Hpre) as Hlt.
  destruct (read_frame_roundtrip data rest segments w wr Hlt)
    as (prefix' & Hpre' & _ & Hread).
  rewrite Hpre in Hpre'. injection Hpre' as <-.
  rewrite <- app_assoc. exact Hread.
Qed.

Lemma X15_text_frame_roundtrip_witness :
  exists payload,
    SocketIO.read_frame
      (Sample.mailbox_world,
       {| SocketIO.reader :=
            {| SocketIO.buffer := [x00; x00; x00; x03; xc3; xa9; x21] ++ [];
               SocketIO.incoming := [] |};
          SocketIO.writer := {| SocketIO.written := [];
                                SocketIO.closed := false;
                              SocketIO.lost := None |} |}) =
    (Ok (Some payload),
     (Sample.mailbox_world,
      {| SocketIO.reader :=
           {| SocketIO.buffer := []; SocketIO.incoming := [] |};
         SocketIO.writer := {| SocketIO.written := [];
                               SocketIO.closed := false;
                              SocketIO.lost := None |} |})) /\
    utf8_decode payload = Some [233%N; 33%N].
Proof.
  apply (X15_text_frame_roundtrip [233%N; 33%N]
           [x00; x00; x00; x03; xc3; xa9; x21] [] []
           (Sample.mailbox_world, SocketIO.fresh_conn [])
           Sample.mailbox_world
           {| SocketIO.written := []; SocketIO.closed := false;
                              SocketIO.lost := None |}).
  reflexivity.
Defined.

(** ** The command executor, further *)

(** What [_execute_script] answers for a loaded script and a message, by
    what becomes of the child. *)
Lemma script_answer config script_name script_path args m w :
  PyDict.dget script_name (w_script_cache w) = Some script_path ->
  let req := {| sp_program := script_path; sp_args := args;
                sp_cwd := Some (working_directory (service config));
                sp_env := Some (Service.script_env (w_environ w) m args) |} in
  fst (Service._execute_script config script_name args (Some m) w) =
  match w_child w req with
  | LaunchFails e =>
      if is_Exception (exc_class e)
      then Ok (lit "Error executing script: " ++ exc_text e)
      else Raise e
  | Exits rc out err =>
      Ok (if rc =? 0
          then str_or (strip out) (lit "Script executed successfully")
          else lit "Script failed (exit code " ++ str_int rc ++ lit "):"
               ++ [10%N] ++ str_or (strip err) (strip out))
  | Overruns =>
      Ok (lit "Script '" ++ script_name ++ lit "' timed out after "
          ++ str_int (max_execution_time (service config)) ++ lit " seconds")
  end.
Proof.
  intros Hcache req.
  unfold Service._execute_script.
  unfold bind at 1, gets at 1. rewrite Hcache.
  unfold bind at 1, ret at 1.
  unfold try_except at 1, bind at 1, gets at 1.
  unfold bind at 1, ret at 1.
  unfold bind at 1, Service.create_subprocess_exec.
  fold req.
  destruct (w_child w req) as [e|rc out err|] eqn:Hc; cbn [fst snd].
  - destruct (is_Exception (exc_class e)); reflexivity.
  - unfold try_except, bind, Service.communicate.
    cbn [set_procs w_procs w_child]. rewrite (lookup_snoc (w_procs w)).
    cbn [p_request]. rewrite Hc. cbn [fst snd].
    destruct (rc =? 0); reflexivity.
  - unfold try_except, bind, Service.communicate.
    cbn [set_procs w_procs w_child]. rewrite (lookup_snoc (w_procs w)).
    cbn [p_request]. rewrite Hc. reflexivity.
Qed.

(** X16.  A script whose child ends in time: with exit status 0 the answer
    is the trimmed standard output, or the canned success text when that is
    empty; with any other status it is the failure text with the status and
    the trimmed standard error, or the trimmed standard output when that is
    empty.  The child is recorded as exited. *)
Theorem X16_script_completion_answer (config : Config)
    (script_name script_path : str) (args : list str) (m : Message)
    (w : World) (rc : Z) (out err : str) :
  PyDict.dget script_name (w_script_cache w) = Some script_path ->
  let req := {| sp_program := script_path; sp_args := args;
                sp_cwd := Some (working_directory (service config));
                sp_env := Some (Service.script_env (w_environ w) m args) |} in
  w_child w req = Exits rc out err ->
  let r := Service._execute_script config script_name args (Some m) w in
  fst r =
    Ok (if rc =? 0
        then str_or (strip out) (lit "Script executed successfully")
        else lit "Script failed (exit code " ++ str_int rc ++ lit "):"
             ++ [10%N] ++ str_or (strip err) (strip out)) /\
  w_procs (snd r) =
    w_procs w ++ [{| p_request := req; p_status := Exited rc |}].
Proof.
  intros Hcache req Hc r. subst r. split.
  - rewrite (script_answer config script_name script_path args m w Hcache).
    fold req. rewrite Hc. reflexivity.
  - rewrite script_procs, Hcache. cbn zeta. fold req. rewrite Hc.
    reflexivity.
Qed.

Lemma X16_script_completion_answer_witness :
  let m := Sample.message_from Sample.alice 42 "!greet world" in
  let r := Service._execute_script Sample.config (lit "greet")
             [lit "world"] (Some m) Sample.greet_world in
  fst r = Ok (lit "hi") /\
  map p_status (w_procs (snd r)) = [Exited 0].
Proof.
  destruct (X16_script_completion_answer Sample.config (lit "greet")
              (lit "scripts/greet") [lit "world"]
              (Sample.message_from Sample.alice 42 "!greet world")
              Sample.greet_world 0 (lit "hi") [] eq_refl eq_refl)
    as (Hans & Hprocs).
  split; [exact Hans|]. rewrite Hprocs. reflexivity.
Defined.

(** X17.  A script that cannot be launched (missing file, no permission):
    the failure is answered as text and logged, no child is recorded, and
    nothing is raised to the caller. *)
Theorem X17_script_launch_failure_is_text (config : Config)
    (script_name script_path : str) (args : list str) (m : Message)
    (w : World) (e : PyExc) :
  PyDict.dget script_name (w_script_cache w) = Some script_path ->
  w_child w {| sp_program := script_path; sp_args := args;
               sp_cwd := Some (working_directory (service config));
               sp_env := Some (Service.script_env (w_environ w) m args) |}
    = LaunchFails e ->
  is_Exception (exc_class e) = true ->
  let r := Service._execute_script config script_name args (Some m) w in
  fst r = Ok (lit "Error executing script: " ++ exc_text e) /\
  w_procs (snd r) = w_procs w.
Proof.
  intros Hcache Hc He r. subst r. split.
  - rewrite (script_answer config script_name script_path args m w Hcache).
    cbn zeta. rewrite Hc, He. reflexivity.
  - rewrite script_procs, Hcache. cbn zeta. rewrite Hc. apply app_nil_r.
Qed.

Lemma X17_script_launch_failure_is_text_witness :
  let w := Sample.world_with ∅
             (fun _ => LaunchFails
                         (mkExc FileNotFoundError
                            (lit "[Errno 2] No such file or directory")))
             [(lit "greet", lit "scripts/greet")] in
  let r := Service._execute_script Sample.config (lit "greet") []
             (Some (Sample.message_from Sample.alice 42 "!greet")) w in
  fst r = Ok (lit "Error executing script: "
              ++ lit "[Errno 2] No such file or directory") /\
  w_procs (snd r) = w_procs w.
Proof.
  apply (X17_script_launch_failure_is_text Sample.config (lit "greet")
           (lit "scripts/greet") []
           (Sample.message_from Sample.alice 42 "!greet")
           (Sample.world_with ∅
              (fun _ => LaunchFails
                          (mkExc FileNotFoundError
                             (lit "[Errno 2] No such file or directory")))
              [(lit "greet", lit "scripts/greet")])
           (mkExc FileNotFoundError
              (lit "[Errno 2] No such file or directory")));
    reflexivity.
Defined.

(** X18.  [execute_script_direct] never launches a child.  For a name that
    is not loaded it answers that the script is not found; for a loaded one
    it passes no message on, the environment cannot be built, and the
    answer is the error text of that failure. *)
Theorem X18_execute_script_direct_launches_nothing (config : Config)
    (script_name : str) (args : list str) (w : World) :
  let r := Service.execute_script_direct config script_name args w in
  w_procs (snd r) = w_procs w /\
  fst r =
    Ok (if PyDict.mem script_name (w_script_cache w)
        then lit "Error executing script: "
             ++ lit "'NoneType' object has no attribute 'id'"
        else lit "Script '" ++ script_name ++ lit "' not found").
Proof.
  lazy zeta. unfold Service.execute_script_direct, bind, gets.
  unfold PyDict.mem.
  destruct (PyDict.dget script_name (w_script_cache w)) as [path|] eqn:Hc;
    cbn [negb]; [|split; reflexivity].
  split.
  - rewrite script_procs. apply app_nil_r.
  - unfold Service._execute_script, bind, gets. rewrite Hc. reflexivity.
Qed.

(** A [try ... except] around what ends well, or with something it does
    not catch, changes nothing. *)
Lemma try_except_passes {St A} (m : M St A) catches h s :
  match fst (m s) with
  | Raise e => catches (exc_class e) = false
  | Ok _ => True
  end ->
  try_except m catches h s = m s.
Proof.
  unfold try_except. destruct (m s) as [[a|e] s']; cbn [fst].
  - reflexivity.
  - intros ->. reflexivity.
Qed.

Lemma execute_script_lets_through config script_name args message w :
  PyDict.mem script_name (w_script_cache w) = true ->
  match fst (Service._execute_script config script_name args message w) with
  | Raise e => is_Exception (exc_class e) = false
  | Ok _ => True
  end.
Proof.
  unfold PyDict.mem. intros Hmem.
  destruct (PyDict.dget script_name (w_script_cache w)) as [path|] eqn:Hc;
    [|discriminate].
  unfold Service._execute_script.
  unfold bind at 1, gets at 1. rewrite Hc.
  unfold bind at 1, ret at 1.
  match goal with
  | |- match fst (try_except ?m ?c ?h ?s) with _ => _ end =>
      pose proof (try_except_lets_through m c h s) as Hlet;
      destruct (fst (try_except m c h s)) as [a|e]; [exact I|]
  end.
  apply (Hlet e); [|reflexivity].
  intros e' s'. eexists. reflexivity.
Qed.

(** The allow-list lets the command through: the list is empty or has the
    command.  (The test [_execute_command] makes.) *)
Lemma allow_list_passes config command :
  allowed_commands (service config) = [] \/
  command ∈ allowed_commands (service config) ->
  match allowed_commands (service config) with
  | [] => false
  | _ :: _ =>
      negb (Service.str_in command (allowed_commands (service config)))
  end = false.
Proof.
  intros [H|H].
  - rewrite H. reflexivity.
  - destruct (allowed_commands (service config)) as [|a l] eqn:Hl;
      [reflexivity|].
    apply str_in_spec in H. rewrite H. reflexivity.
Qed.

(** X19.  The order of resolution: a command that the allow-list lets
    through and that names a loaded script runs the script, also when it is
    the name of a system command or of a built-in ([ls], [help], ...): the
    loaded script shadows them. *)
Theorem X19_loaded_script_shadows_other_commands (config : Config)
    (command : str) (args : list str) (message : option Message)
    (w : World) :
  allowed_commands (service config) = [] \/
  command ∈ allowed_commands (service config) ->
  PyDict.mem command (w_script_cache w) = true ->
  Service._execute_command config command args message w =
  Service._execute_script config command args message w.
Proof.
  intros Hallow Hmem. unfold Service._execute_command.
  rewrite (allow_list_passes config command Hallow).
  rewrite try_except_passes.
  - unfold bind, gets. rewrite Hmem. reflexivity.
  - unfold bind, gets. rewrite Hmem.
    apply execute_script_lets_through, Hmem.
Qed.

Lemma X19_loaded_script_shadows_other_commands_witness :
  let w := Sample.world_with ∅ (fun _ => Exits 0 (lit "mine") [])
             [(lit "help", lit "scripts/help")] in
  let m := Sample.message_from Sample.alice 42 "!help" in
  Service._execute_command Sample.config (lit "help") [] (Some m) w =
  Service._execute_script Sample.config (lit "help") [] (Some m) w /\
  fst (Service._execute_script Sample.config (lit "help") [] (Some m) w)
    = Ok (lit "mine").
Proof.
  split; [|reflexivity].
  apply (X19_loaded_script_shadows_other_commands Sample.config (lit "help")
           [] (Some (Sample.message_from Sample.alice 42 "!help"))
           (Sample.world_with ∅ (fun _ => Exits 0 (lit "mine") [])
              [(lit "help", lit "scripts/help")])).
  - left. reflexivity.
  - reflexivity.
Defined.

(** X20.  A command that passes the allow-list and is no loaded script, no
    system command and no built-in is answered with the unknown-command
    text that names it; nothing is run and nothing changes. *)
Theorem X20_unknown_command_answer (config : Config) (command : str)
    (args : list str) (message : option Message) (w : World) :
  allowed_commands (service config) = [] \/
  command ∈ allowed_commands (service config) ->
  PyDict.mem command (w_script_cache w) = false ->
  command ∉ Service.system_commands ->
  command ∉ [lit "help"; lit "list"; lit "status"; lit "reload"] ->
  Service._execute_command config command args message w =
  (Ok (lit "Unknown command: " ++ command
       ++ lit ". Use 'help' for available commands."), w).
Proof.
  intros Hallow Hmem Hsys Hbuiltin. unfold Service._execute_command.
  rewrite (allow_list_passes config command Hallow).
  unfold try_except, bind, gets. rewrite Hmem.
  destruct (Service.str_in command Service.system_commands) eqn:E.
  { apply str_in_spec in E. contradiction. }
  repeat (rewrite bool_decide_eq_false_2;
          [|intros ->; apply Hbuiltin; repeat constructor]).
  reflexivity.
Qed.

Lemma X20_unknown_command_answer_witness :
  Service._execute_command Sample.config (lit "frobnicate") [] None
    Sample.greet_world =
  (Ok (lit "Unknown command: " ++ lit "frobnicate"
       ++ lit ". Use 'help' for available commands."), Sample.greet_world).
Proof.
  apply (X20_unknown_command_answer Sample.config (lit "frobnicate") [] None
           Sample.greet_world).
  - left. reflexivity.
  - reflexivity.
  - apply (bool_decide_eq_false_1
             (lit "frobnicate" ∈ Service.system_commands)).
    vm_compute. reflexivity.
  - apply (bool_decide_eq_false_1
             (lit "frobnicate"
                ∈ [lit "help"; lit "list"; lit "status"; lit "reload"])).
    vm_compute. reflexivity.
Defined.

(** *** Reloading twice *)

Lemma dset_same {V} (k : str) (v : V) (d : PyDict.t V) :
  PyDict.dget k d = Some v -> PyDict.dset k v d = d.
Proof.
  induction d as [|[k0 v0] d IH]; simpl; [discriminate|].
  destruct (decide (k0 = k)) as [->|Hne].
  - intros [= ->]. reflexivity.
  - intros H. rewrite (IH H). reflexivity.
Qed.

(** The loop over the directory leaves a cache as it is when the cache has
    every script of the directory already. *)
Lemma load_entries_loaded dir entries : forall w,
  (forall name, name ∈ entries ->
     Service.is_script (w_fs w) dir name = true ->
     PyDict.dget name (w_script_cache w) = Some (Service.path_join dir name)) ->
  w_script_cache (snd (Service.load_entries dir entries w)) =
  w_script_cache w.
Proof.
  induction entries as [|name rest IH]; intros w Hall; [reflexivity|].
  set (step := match w_fs w !! Service.path_join dir name with
               | Some (File st_mode _) =>
                   if Service.executable st_mode then
                     modify (set_script_cache
                               (PyDict.dset name
                                  (Service.path_join dir name))) >>
                     logging INFO (lit "Loaded script: " ++ name)
                   else ret tt
               | _ => ret tt
               end).
  assert (Hstep : fst (step w) = Ok tt /\
                  w_fs (snd (step w)) = w_fs w /\
                  w_script_cache (snd (step w)) = w_script_cache w).
  { subst step.
    pose proof (Hall name (list_elem_of_here name rest)) as Hname.
    unfold Service.is_script in Hname.
    destruct (w_fs w !! Service.path_join dir name) as [[|mode text]|];
      try (repeat split; reflexivity).
    destruct (Service.executable mode); [|repeat split; reflexivity].
    repeat split. simpl. apply dset_same, Hname. reflexivity. }
  destruct Hstep as (Hok & Hfs & Hcache).
  assert (Heq : Service.load_entries dir (name :: rest) w =
                Service.load_entries dir rest (snd (step w))).
  { change (match step w with
            | (Ok _, s') => Service.load_entries dir rest s'
            | (Raise e, s') => (Raise e, s')
            end = Service.load_entries dir rest (snd (step w))).
    destruct (step w) as [[[]|e] w1]; [reflexivity|discriminate]. }
  rewrite Heq, IH; [exact Hcache|].
  intros n Hn Hscript. rewrite Hcache. rewrite Hfs in Hscript.
  apply Hall; [apply list_elem_of_further, Hn|exact Hscript].
Qed.

(** What [_load_scripts] does, by what the script directory is. *)
Lemma load_scripts_eval (config : Config) (w : World) :
  let dir := PyPath.Path (script_directory (service config)) in
  Service._load_scripts config w =
  match w_fs w !! PyPath.to_str dir with
  | None =>
      (Ok tt,
       snd (logging INFO (lit "Created script directory: "
                          ++ PyPath.to_str dir)
              (set_fs (fun m => <[PyPath.to_str dir := Dir []]> m) w)))
  | Some (Dir entries) => Service.load_entries dir entries w
  | Some (File _ _) => (Ok tt, w)
  end.
Proof.
  cbn zeta. unfold Service._load_scripts. cbn zeta. unfold bind at 1, gets.
  destruct (w_fs w !! PyPath.to_str
                        (PyPath.Path (script_directory (service config))))
    as [[|]|]; reflexivity.
Qed.

(** X21.  Reloading is idempotent on the mapping: a second reload right
    after a reload leaves the mapping, entries and order, as the first one
    made it. *)
Theorem X21_reload_twice_is_reload_once (config : Config) (w : World) :
  let w1 := snd (Service._load_scripts config w) in
  w_script_cache (snd (Service._load_scripts config w1)) = w_script_cache w1.
Proof.
  lazy zeta. rewrite (load_scripts_eval config w). cbn zeta.
  set (dir := PyPath.Path (script_directory (service config))).
  destruct (w_fs w !! PyPath.to_str dir) as [[entries|mode text]|] eqn:Hdir.
  - destruct (load_entries_spec dir entries w) as (_ & Hfs & Hcache).
    rewrite load_scripts_eval. cbn zeta. fold dir. rewrite Hfs, Hdir.
    apply load_entries_loaded.
    intros name Hin Hscript. rewrite Hcache. rewrite Hfs in Hscript.
    rewrite Hscript, bool_decide_eq_true_2 by exact Hin. reflexivity.
  - cbn [snd]. rewrite load_scripts_eval. cbn zeta. fold dir.
    rewrite Hdir. reflexivity.
  - rewrite load_scripts_eval. cbn zeta. fold dir.
    unfold logging, modify. cbn [fst snd set_log set_fs w_fs].
    rewrite lookup_insert_eq. reflexivity.
Qed.

(** *** The tokens of a command line *)

Lemma existsb_isspace_rev (t : str) :
  existsb isspace (rev t) = existsb isspace t.
Proof.
  destruct (existsb isspace t) eqn:E.
  - apply existsb_exists in E as (x & Hin & Hx).
    apply existsb_exists. exists x. split; [|exact Hx].
    apply in_rev. rewrite rev_involutive. exact Hin.
  - apply not_true_is_false. intros H.
    apply existsb_exists in H as (x & Hin & Hx).
    apply in_rev in Hin.
    assert (existsb isspace t = true) as Ht
      by (apply existsb_exists; exists x; auto).
    congruence.
Qed.

(** Every token of [split()] is non-empty and has no white space. *)
Lemma split_aux_tokens (s : str) : forall cur,
  existsb isspace cur = false ->
  Forall (fun t => t <> [] /\ existsb isspace t = false) (split_aux cur s).
Proof.
  induction s as [|c s IH]; intros cur Hcur.
  - destruct cur as [|x cur]; [constructor|].
    constructor; [|constructor]. split.
    + intros H. apply (f_equal (@rev N)) in H.
      rewrite rev_involutive in H. discriminate.
    + rewrite existsb_isspace_rev. exact Hcur.
  - cbn [split_aux]. destruct (isspace c) eqn:Hc.
    + destruct cur as [|x cur]; [apply IH; reflexivity|].
      constructor; [|apply IH; reflexivity]. split.
      * intros H. apply (f_equal (@rev N)) in H.
        rewrite rev_involutive in H. discriminate.
      * rewrite existsb_isspace_rev. exact Hcur.
    + apply IH. cbn [existsb]. rewrite Hc. exact Hcur.
Qed.

(** X22.  What the service handler reads off a message is well formed: the
    command name is not empty and neither it nor any argument has white
    space in it or is empty. *)
Theorem X22_parsed_command_is_tokens (config : Config) (text : str)
    (command : str) (args : list str) :
  Service.parse_command config text = Some (command, args) ->
  (command <> [] /\ existsb isspace command = false) /\
  Forall (fun a => a <> [] /\ existsb isspace a = false) args.
Proof.
  unfold Service.parse_command. cbn zeta.
  destruct (negb _); [discriminate|].
  pose proof (split_aux_tokens (strip (slice_from 1 (strip text))) []
                eq_refl) as Htok.
  unfold split.
  destruct (split_aux [] _) as [|c a]; [discriminate|].
  intros [= <- <-]. inversion Htok; subst. split; assumption.
Qed.

Lemma X22_parsed_command_is_tokens_witness :
  (lit "greet" <> [] /\ existsb isspace (lit "greet") = false) /\
  Forall (fun a => a <> [] /\ existsb isspace a = false)
    [lit "big"; lit "world"].
Proof.
  apply (X22_parsed_command_is_tokens Sample.config
           (lit "  !greet   big world  ") (lit "greet")
           [lit "big"; lit "world"]).
  vm_compute. reflexivity.
Defined.

(** *** Replying to a command *)

(** X23.  The reply of the service handler: for a message that carries a
    command, and a chat service that takes every message, the handler sends
    the non-empty answer of the executor back as exactly one message, after
    whatever the executor has sent itself. *)
Theorem X23_service_reply_is_one_message (config : Config) (c : Z)
    (message : Message) (command : str) (args : list str) (w : World)
    (response : str) (w1 : World) :
  Service.parse_command config (msg_content message) = Some (command, args) ->
  Service._execute_command config command args (Some message) w
    = (Ok response, w1) ->
  response <> [] ->
  service_up config c w1 ->
  let r := Service._handle_service_message config message w in
  fst r = Ok tt /\
  d_outbox (w_discord (snd r)) = d_outbox (w_discord w1) ++ [(c, response)].
Proof.
  intros Hparse Hexec Hne Hup. lazy zeta.
  unfold Service._handle_service_message. rewrite Hparse.
  unfold bind. rewrite Hexec.
  destruct response as [|x response]; [congruence|].
  destruct (send_message_up config c (x :: response) w1 Hup)
    as (Hsend & Hout & _).
  rewrite Hsend. split; [reflexivity|exact Hout].
Qed.

Lemma X23_service_reply_is_one_message_witness :
  let r := Service._handle_service_message Sample.config
             (Sample.message_from Sample.alice 42 "!frobnicate")
             Sample.greet_world in
  fst r = Ok tt /\
  d_outbox (w_discord (snd r)) =
    d_outbox (w_discord Sample.greet_world)
    ++ [(42, lit "Unknown command: " ++ lit "frobnicate"
             ++ lit ". Use 'help' for available commands.")].
Proof.
  apply (X23_service_reply_is_one_message Sample.config 42
           (Sample.message_from Sample.alice 42 "!frobnicate")
           (lit "frobnicate") [] Sample.greet_world
           (lit "Unknown command: " ++ lit "frobnicate"
            ++ lit ". Use 'help' for available commands.")
           Sample.greet_world).
  - vm_compute. reflexivity.
  - reflexivity.
  - vm_compute. discriminate.
  - repeat split; try reflexivity. simpl. lia.
Defined.

(** ** Merging configurations ([ConfigMerge._merge_configs]) *)

(** The loop of [_merge_configs] is a left fold of its turns. *)
Lemma merge_configs_fold (overrides : list (str * json)) : forall base,
  ConfigMerge._merge_configs base overrides =
  fold_left ConfigMerge.merge_item overrides base.
Proof.
  unfold ConfigMerge._merge_configs.
  induction overrides as [|[key value] rest IH]; intros base; [reflexivity|].
  cbn [fold_left]. rewrite <- IH.
  change (ConfigMerge.merge_value base (JDict ((key, value) :: rest)))
    with (ConfigMerge.merge_value
            match PyDict.dget key base, value with
            | Some (JDict b), JDict _ =>
                PyDict.dset key (JDict (ConfigMerge.merge_value b value)) base
            | _, _ => PyDict.dset key value base
            end (JDict rest)).
  unfold ConfigMerge.merge_item, ConfigMerge._merge_configs. cbn [fst snd].
  destruct (PyDict.dget key base) as [[| | | | | |b]|]; try reflexivity.
  destruct value; reflexivity.
Qed.

Lemma dget_not_key {V} (k : str) (d : PyDict.t V) :
  k ∉ PyDict.keys d -> PyDict.dget k d = None.
Proof.
  induction d as [|[k0 v0] d IH]; [reflexivity|].
  cbn [PyDict.keys map fst PyDict.dget]. intros Hnot.
  apply not_elem_of_cons in Hnot as [Hne Hrest].
  destruct (decide (k0 = k)); [congruence|]. apply IH, Hrest.
Qed.

Lemma dget_merge_item (k : str) (result : list (str * json))
    (item : str * json) :
  PyDict.dget k (ConfigMerge.merge_item result item) =
  if decide (fst item = k)
  then match PyDict.dget k result, snd item with
       | Some (JDict b), JDict o =>
           Some (JDict (ConfigMerge._merge_configs b o))
       | _, _ => Some (snd item)
       end
  else PyDict.dget k result.
Proof.
  unfold ConfigMerge.merge_item.
  destruct (decide (fst item = k)) as [<-|Hne].
  - destruct (PyDict.dget (fst item) result) as [[| | | | | |b]|];
      try (rewrite dget_dset, decide_True by reflexivity; reflexivity).
    destruct (snd item);
      rewrite dget_dset, decide_True by reflexivity; reflexivity.
  - destruct (PyDict.dget (fst item) result) as [[| | | | | |b]|];
      try (rewrite dget_dset, decide_False by exact Hne; reflexivity).
    destruct (snd item);
      rewrite dget_dset, decide_False by exact Hne; reflexivity.
Qed.

(** X24.  What [_merge_configs] gives under a key, for overrides with
    distinct keys (a dict): a key the overrides do not have keeps the value
    of the base; a key of the overrides takes their value, except that two
    dicts under the same key are merged in turn. *)
Theorem X24_merge_configs_lookup (base overrides : list (str * json))
    (k : str) :
  NoDup (PyDict.keys overrides) ->
  PyDict.dget k (ConfigMerge._merge_configs base overrides) =
  match PyDict.dget k overrides with
  | None => PyDict.dget k base
  | Some v =>
      match PyDict.dget k base, v with
      | Some (JDict b), JDict o =>
          Some (JDict (ConfigMerge._merge_configs b o))
      | _, _ => Some v
      end
  end.
Proof.
  rewrite merge_configs_fold. revert base.
  induction overrides as [|[key value] rest IH]; intros base Hnodup;
    [reflexivity|].
  cbn [PyDict.keys map fst] in Hnodup.
  apply NoDup_cons in Hnodup as [Hfresh Hnodup].
  cbn [fold_left PyDict.dget]. rewrite (IH _ Hnodup).
  rewrite !dget_merge_item. cbn [fst snd].
  destruct (decide (key = k)) as [->|Hne].
  - rewrite (dget_not_key k rest) by exact Hfresh. reflexivity.
  - reflexivity.
Qed.

Lemma X24_merge_configs_lookup_witness :
  PyDict.dget (lit "bot")
    (ConfigMerge._merge_configs
       [(lit "bot", JDict [(lit "token", JStr (lit "file"));
                           (lit "prefix", JStr (lit "!"))])]
       [(lit "bot", JDict [(lit "token", JStr (lit "env"))])]) =
  Some (JDict [(lit "token", JStr (lit "env"));
               (lit "prefix", JStr (lit "!"))]).
Proof.
  rewrite (X24_merge_configs_lookup
             [(lit "bot", JDict [(lit "token", JStr (lit "file"));
                                 (lit "prefix", JStr (lit "!"))])]
             [(lit "bot", JDict [(lit "token", JStr (lit "env"))])]
             (lit "bot")).
  - reflexivity.
  - apply (bool_decide_unpack _). vm_compute. exact I.
Defined.

Lemma keys_dset {V} (k : str) (v : V) (d : PyDict.t V) :
  PyDict.keys (PyDict.dset k v d) =
  PyDict.keys d ++ (if PyDict.mem k d then [] else [k]).
Proof.
  unfold PyDict.mem, PyDict.keys.
  induction d as [|[k0 v0] d IH]; [reflexivity|].
  cbn [PyDict.dset PyDict.dget].
  destruct (decide (k0 = k)) as [->|Hne].
  - cbn [map fst]. rewrite app_nil_r. reflexivity.
  - cbn [map fst app]. rewrite IH. reflexivity.
Qed.

(** One turn of the loop adds its key at the end when the result does not
    have it, and leaves the keys as they are when it has. *)
Lemma keys_merge_item (result : list (str * json)) (item : str * json) :
  PyDict.keys (ConfigMerge.merge_item result item) =
  PyDict.keys result
  ++ (if PyDict.mem (fst item) result then [] else [fst item]).
Proof.
  unfold ConfigMerge.merge_item.
  destruct (PyDict.dget (fst item) result) as [[| | | | | |b]|] eqn:E;
    try apply keys_dset.
  destruct (snd item); apply keys_dset.
Qed.

(** A turn of the loop changes the membership of no other key. *)
Lemma mem_merge_item (k : str) (result : list (str * json))
    (item : str * json) :
  fst item <> k ->
  PyDict.mem k (ConfigMerge.merge_item result item) = PyDict.mem k result.
Proof.
  intros Hne. unfold PyDict.mem. rewrite dget_merge_item.
  rewrite decide_False by exact Hne. reflexivity.
Qed.

(** X25.  The order of the keys after [_merge_configs], for overrides with
    distinct keys (a dict): first the keys of the base, in the order of the
    base, then the keys that only the overrides have, in the order of the
    overrides. *)
Theorem X25_merge_configs_keeps_base_keys (base overrides : list (str * json)) :
  NoDup (PyDict.keys overrides) ->
  PyDict.keys (ConfigMerge._merge_configs base overrides) =
  PyDict.keys base
  ++ List.filter (fun k => negb (PyDict.mem k base)) (PyDict.keys overrides).
Proof.
  rewrite merge_configs_fold. revert base.
  induction overrides as [|[key value] rest IH]; intros base Hnodup.
  - cbn [fold_left PyDict.keys map List.filter]. rewrite app_nil_r.
    reflexivity.
  - cbn [PyDict.keys map fst] in Hnodup.
    apply NoDup_cons in Hnodup as [Hfresh Hnodup].
    cbn [fold_left]. rewrite (IH _ Hnodup), keys_merge_item.
    cbn [fst PyDict.keys map List.filter].
    rewrite (List.filter_ext_in
               (fun k => negb (PyDict.mem k
                                 (ConfigMerge.merge_item base (key, value))))
               (fun k => negb (PyDict.mem k base))).
    + rewrite <- app_assoc.
      destruct (PyDict.mem key base); reflexivity.
    + intros k Hin. rewrite mem_merge_item; [reflexivity|].
      cbn [fst]. intros ->. apply Hfresh.
      apply list_elem_of_In. exact Hin.
Qed.

Lemma X25_merge_configs_keeps_base_keys_witness :
  PyDict.keys
    (ConfigMerge._merge_configs
       [(lit "bot", JDict [(lit "prefix", JStr (lit "!"))]);
        (lit "logging", JDict [(lit "level", JStr (lit "INFO"))])]
       [(lit "service", JDict [(lit "enabled", JBool true)]);
        (lit "bot", JDict [(lit "token", JStr (lit "env"))]);
        (lit "socket", JDict [(lit "enabled", JBool true)])]) =
  [lit "bot"; lit "logging"; lit "service"; lit "socket"].
Proof.
  rewrite (X25_merge_configs_keeps_base_keys
             [(lit "bot", JDict [(lit "prefix", JStr (lit "!"))]);
              (lit "logging", JDict [(lit "level", JStr (lit "INFO"))])]
             [(lit "service", JDict [(lit "enabled", JBool true)]);
              (lit "bot", JDict [(lit "token", JStr (lit "env"))]);
              (lit "socket", JDict [(lit "enabled", JBool true)])]).
  - vm_compute. reflexivity.
  - apply (bool_decide_unpack _). vm_compute. exact I.
Defined.

(** ** Registration and dispatch *)

Lemma run_handlers_app {S : Type} (hs1 hs2 : list (@Bot.Handler S))
    (message : Message) (s : S) :
  Bot.run_handlers (hs1 ++ hs2) message s =
  Bot.run_handlers hs2 message (Bot.run_handlers hs1 message s).
Proof.
  revert s. induction hs1 as [|h hs1 IH]; intros s; [reflexivity|].
  simpl. apply IH.
Qed.

(** X26.  A handler registered with [add_message_handler] is dispatched
    to last: for a message that passes the guards, it is called once, after
    every handler registered before it, on the state they leave. *)
Theorem X26_added_handler_is_called_last {S : Type} (user : User)
    (config : Config) (hs : list (@Bot.Handler S)) (h : @Bot.Handler S)
    (message : Message) (s : S) :
  Bot.passes_filter user config message = true ->
  Forall (fun h' => Bot.fails_with_Exception h' message) (hs ++ [h]) ->
  let r := Bot.on_message user config (Bot.add_message_handler hs h)
             message (s, []) in
  fst r = Ok tt /\
  fst (snd r) = snd (h message (Bot.run_handlers hs message s)) /\
  Bot.invoked (snd (snd r)) = seq 0 (length hs) ++ [length hs].
Proof.
  intros Hpass Hall. lazy zeta. unfold Bot.passes_filter in Hpass.
  apply andb_true_iff in Hpass as [Hauthor Hchannel].
  apply negb_true_iff in Hauthor, Hchannel.
  unfold Bot.on_message, Bot.add_message_handler.
  rewrite Hauthor, Hchannel.
  unfold bind. rewrite for_handlers_events by assumption.
  unfold Bot.emit, modify. cbn [fst snd app].
  rewrite invoked_app, invoked_loop_events, run_handlers_app.
  rewrite length_app, Nat.add_comm. cbn [length Nat.add].
  rewrite seq_S. cbn [Bot.invoked Bot.run_handlers Nat.add].
  rewrite app_nil_r. auto.
Qed.

Lemma X26_added_handler_is_called_last_witness :
  let message := Sample.message_from Sample.alice 42 "hi" in
  let r := Bot.on_message Sample.bot_user Sample.config
             (Bot.add_message_handler [Sample.faulty] Sample.counting)
             message (0%nat, []) in
  fst r = Ok tt /\
  fst (snd r) =
    snd (Sample.counting message
           (Bot.run_handlers [Sample.faulty] message 0%nat)) /\
  Bot.invoked (snd (snd r)) = seq 0 (length [Sample.faulty]) ++ [length [Sample.faulty]].
Proof.
  apply (X26_added_handler_is_called_last Sample.bot_user Sample.config
           [Sample.faulty] Sample.counting
           (Sample.message_from Sample.alice 42 "hi") 0%nat).
  - reflexivity.
  - repeat constructor; intros s e s' H; inversion H; reflexivity.
Defined.

(** ** System commands and built-ins *)

(** X27.  What [_execute_system_command] answers, by what becomes of the
    child: the trimmed output or the canned success text for exit status 0;
    the failure text with the status and the trimmed standard error (or
    else output) for any other status; the error text when the command
    cannot be launched; the timed-out text when it overruns.  No exception
    derived from [Exception] gets out of it. *)
Theorem X27_system_command_answer (config : Config) (command : str)
    (args : list str) (w : World) :
  fst (Service._execute_system_command config command args w) =
  match w_child w {| sp_program := command; sp_args := args;
                     sp_cwd := None; sp_env := None |} with
  | LaunchFails e =>
      if is_Exception (exc_class e) then
        if is_TimeoutError (exc_class e) then
          Ok (lit "Command '" ++ command ++ lit "' timed out after "
              ++ str_int (max_execution_time (service config))
              ++ lit " seconds")
        else Ok (lit "Error executing command: " ++ exc_text e)
      else Raise e
  | Exits rc out err =>
      Ok (if rc =? 0
          then str_or (strip out) (lit "Command executed successfully")
          else lit "Command failed (exit code " ++ str_int rc ++ lit "):"
               ++ [10%N] ++ str_or (strip err) (strip out))
  | Overruns =>
      Ok (lit "Command '" ++ command ++ lit "' timed out after "
          ++ str_int (max_execution_time (service config)) ++ lit " seconds")
  end.
Proof.
  unfold Service._execute_system_command, try_except, bind,
    Service.create_subprocess_exec, Service.communicate.
  destruct (w_child w _) as [e|rc out err|] eqn:Hc; cbn [fst snd].
  - destruct (is_Exception (exc_class e)); [|reflexivity].
    destruct (is_TimeoutError (exc_class e)); reflexivity.
  - cbn [set_procs w_procs w_child]. rewrite (lookup_snoc (w_procs w)).
    cbn [p_request]. rewrite Hc. cbn [fst snd].
    destruct (rc =? 0); reflexivity.
  - cbn [set_procs w_procs w_child]. rewrite (lookup_snoc (w_procs w)).
    cbn [p_request]. rewrite Hc. reflexivity.
Qed.

(** X28.  The built-ins [help], [list] and [status], when the allow-list
    lets them through and no script of that name is loaded, give their
    answer and change nothing: nothing is launched, sent or logged. *)
Theorem X28_informational_builtins_change_nothing (config : Config)
    (command : str) (args : list str) (message : option Message)
    (w : World) :
  allowed_commands (service config) = [] \/
  command ∈ allowed_commands (service config) ->
  PyDict.mem command (w_script_cache w) = false ->
  command ∈ [lit "help"; lit "list"; lit "status"] ->
  exists answer,
    Service._execute_command config command args message w = (Ok answer, w).
Proof.
  intros Hallow Hmem Hcmd. unfold Service._execute_command.
  rewrite (allow_list_passes config command Hallow).
  unfold try_except, bind, gets. rewrite Hmem.
  apply elem_of_cons in Hcmd as [->|Hcmd];
    [|apply elem_of_cons in Hcmd as [->|Hcmd];
      [|apply list_elem_of_singleton in Hcmd as ->]].
  - change (Service.str_in (lit "help") Service.system_commands) with false.
    rewrite bool_decide_eq_true_2 by reflexivity.
    unfold Service._get_help, bind, gets, ret. cbn [fst snd].
    eexists. reflexivity.
  - change (Service.str_in (lit "list") Service.system_commands) with false.
    rewrite bool_decide_eq_false_2 by (vm_compute; discriminate).
    rewrite bool_decide_eq_true_2 by reflexivity.
    unfold Service._list_scripts, bind, gets, ret. cbn [fst snd].
    destruct (w_script_cache w); eexists; reflexivity.
  - change (Service.str_in (lit "status") Service.system_commands) with false.
    rewrite !bool_decide_eq_false_2 by (vm_compute; discriminate).
    rewrite bool_decide_eq_true_2 by reflexivity.
    unfold Service._get_status, Bot.is_connected, bind, get, gets, ret.
    cbn [fst snd]. eexists. reflexivity.
Qed.

Lemma X28_informational_builtins_change_nothing_witness :
  exists answer,
    Service._execute_command Sample.config (lit "status") [] None
      Sample.greet_world = (Ok answer, Sample.greet_world).
Proof.
  apply (X28_informational_builtins_change_nothing Sample.config
           (lit "status") [] None Sample.greet_world).
  - left. reflexivity.
  - reflexivity.
  - apply (bool_decide_unpack _). vm_compute. exact I.
Defined.
